(** * Audio-to-whiteboard-animation pipeline (main.py): a shallow embedding

    The script transcribes an uploaded audio file, splits the transcript
    into sentences, asks an image service for one illustration per
    sentence and assembles the illustrations and the audio into a video.

    Layout of this development:
    - [PyStr]     Python [str] values as lists of code points, with the
                  three string methods [segment_text] uses;
    - [Segmenter] [segment_text];
    - [Runtime]   the effects of the script: a file system, the Streamlit
                  widgets, the external services, and a state/exception
                  monad threading them;
    - [Pipeline]  [generate_image_for_sentence],
                  [create_video_from_images] and the button handler;
    - the properties, one section per function.

    Outside the model: the start-up code (the API key, the creation of
    [temp]) and the widgets above the button; a run starts with [temp] in
    place and with the choices of the user given.  Also outside: a
    failure of [f.write] once [open] has succeeded (a full disk), and
    files that change under the run from outside it. *)

From Stdlib Require Import NArith ZArith Lia List String Ascii.
From Stdlib Require Import DecimalString DecimalNat PrimFloat Uint63.
From stdpp Require Import base option list gmap sorting.

Set Default Proof Using "Type".
Open Scope list_scope.

(** ** Python strings *)

Module PyStr.

(** A [str] is a sequence of Unicode code points. *)
Abbreviation char := N (only parsing).
Abbreviation str := (list N) (only parsing).

Definition char_eqb (a b : char) : bool := N.eqb a b.

(** Decoding of the UTF-8 source text of a literal: [need] continuation
    bytes are still expected for the code point accumulated in [acc]. *)
Fixpoint decode_utf8 (need : nat) (acc : N) (bs : list N) : str :=
  match bs with
  | [] => []
  | b :: bs' =>
      match need with
      | O =>
          if (b <? 128)%N then b :: decode_utf8 0 0%N bs'
          else if (b <? 224)%N then decode_utf8 1 (N.land b 31) bs'
          else if (b <? 240)%N then decode_utf8 2 (N.land b 15) bs'
          else decode_utf8 3 (N.land b 7) bs'
      | S O => (acc * 64 + N.land b 63)%N :: decode_utf8 0 0%N bs'
      | S k => decode_utf8 k (acc * 64 + N.land b 63)%N bs'
      end
  end.

(** A literal of the source file. *)
Definition lit (s : string) : str :=
  decode_utf8 0 0%N (map N_of_ascii (list_ascii_of_string s)).

(** [str(n)] and [f"{n}"] for a non-negative [int]. *)
Definition of_nat (n : nat) : str :=
  lit (NilEmpty.string_of_uint (Nat.to_uint n)).

(** [c.isspace()] for one code point: CPython's [_PyUnicode_IsWhitespace]
    (bidirectional class WS, B or S, or general category Zs). *)
Definition isspace (c : char) : bool :=
  ((9 <=? c) && (c <=? 13) || (28 <=? c) && (c <=? 32)
   || (c =? 133) || (c =? 160) || (c =? 5760)
   || (8192 <=? c) && (c <=? 8202)
   || (c =? 8232) || (c =? 8233) || (c =? 8239) || (c =? 8287)
   || (c =? 12288))%N.

(** [s.lstrip()], [s.rstrip()], [s.strip()] with no argument. *)
Fixpoint lstrip (s : str) : str :=
  match s with
  | [] => []
  | c :: s' => if isspace c then lstrip s' else s
  end.

Fixpoint rstrip (s : str) : str :=
  match s with
  | [] => []
  | c :: s' =>
      match rstrip s' with
      | [] => if isspace c then [] else [c]
      | r => c :: r
      end
  end.

Definition strip (s : str) : str := rstrip (lstrip s).

(** [s.replace(old, new)] for one-character [old] and [new], the only
    form the script uses. *)
Definition replace (old new : char) (s : str) : str :=
  map (fun c => if char_eqb c old then new else c) s.

(** [s.split(sep)] for a one-character separator: the pieces between
    the occurrences of [sep], empty pieces included; never empty. *)
Fixpoint split (sep : char) (s : str) : list str :=
  match s with
  | [] => [[]]
  | c :: s' =>
      if char_eqb c sep then [] :: split sep s'
      else match split sep s' with
           | [] => [[c]]
           | p :: ps => (c :: p) :: ps
           end
  end.

(** Truth value of a string: [bool(s)]. *)
Definition truthy (s : str) : bool :=
  match s with [] => false | _ => true end.

(** [sep.join(...)] is not used; [a + b] is [a ++ b]. *)

Definition dot : char := 46%N.
Definition bang : char := 33%N.
Definition qmark : char := 63%N.
Definition slash : char := 47%N.

End PyStr.

Import PyStr.

(** ** The segmenter *)

Module Segmenter.

(** [[
    def segment_text(text):
        sentences = text.replace('!', '.').replace('?', '.').split('.')
        return [s.strip() for s in sentences if s.strip()]
    ]] *)
Definition segment_text (text : str) : list str :=
  let sentences := split dot (replace qmark dot (replace bang dot text)) in
  map strip (filter (fun s => truthy (strip s) = true) sentences).

End Segmenter.

Import Segmenter.

(** ** Durations

  The script computes with Python floats (binary64).  The three
  operations it and the video library apply to durations are kept
  behind an interface, whose instance is binary64: what the interpreter
  computes. *)

Module Time.

Class Seconds (T : Type) := {
  sec_zero : T;               (* [0] *)
  sec_half : T;               (* the literal [0.5] *)
  sec_add : T -> T -> T;      (* [a + b] *)
  sec_div : T -> nat -> T     (* [a / n] for an [int] [n <> 0] *)
}.

(** [float(n)] for a list length [n] (below 2^63). *)
Definition float_of_nat (n : nat) : float :=
  PrimFloat.of_uint63 (Uint63.of_Z (Z.of_nat n)).

#[export] Instance binary64 : Seconds float := {|
  sec_zero := 0%float;
  sec_half := 0.5%float;
  sec_add := PrimFloat.add;
  sec_div := fun a n => PrimFloat.div a (float_of_nat n)
|}.

End Time.

Import Time.

(** ** The effects of the script *)

Module Runtime.

Abbreviation path := (list N) (only parsing).
Abbreviation bytes := (list Byte.byte) (only parsing).

(** [os.path.join(a, b)] of [posixpath]. *)
Definition endswith_slash (a : str) : bool :=
  match last a with
  | Some c => char_eqb c slash
  | None => false
  end.

Definition path_join (a b : str) : str :=
  let startswith_sep := match b with c :: _ => char_eqb c slash | [] => false end in
  if startswith_sep then b
  else if negb (truthy a) || endswith_slash a then a ++ b
  else a ++ slash :: b.

(** Exceptions, all of them instances of [Exception].  [ServiceError]
    stands for whatever an external service or library raises. *)
Inductive exn :=
| ServiceError (text : str)
| ZeroDivisionError
| FileNotFoundError (p : path)
| IsADirectoryError (p : path).

(** [str(e)] *)
Definition exn_str (e : exn) : str :=
  match e with
  | ServiceError text => text
  | ZeroDivisionError => lit "float division by zero"
  | FileNotFoundError p =>
      lit "[Errno 2] No such file or directory: '" ++ p ++ lit "'"
  | IsADirectoryError p =>
      lit "[Errno 21] Is a directory: '" ++ p ++ lit "'"
  end.

(** The clips of the video library.  An [ImageClip] has no duration until
    [set_duration]; [fadein] records an effect on the clip. *)
Inductive effect (T : Type) :=
| FadeIn (d : T).
Arguments FadeIn {T} d.

Record image_clip (T : Type) := {
  clip_image : path;
  clip_duration : option T;
  clip_effects : list (effect T)
}.
Arguments clip_image {T} _.
Arguments clip_duration {T} _.
Arguments clip_effects {T} _.

Record audio_clip (T : Type) := {
  audio_source : path;
  audio_duration : T
}.
Arguments audio_source {T} _.
Arguments audio_duration {T} _.

Record video_clip (T : Type) := {
  video_clips : list (image_clip T);
  video_duration : T;
  video_audio : option (audio_clip T)
}.
Arguments video_clips {T} _.
Arguments video_duration {T} _.
Arguments video_audio {T} _.

(** What a run does that can be observed: the Streamlit elements it
    shows, the calls of the three pipeline functions with their
    arguments, and the clip handed to the encoder. *)
Inductive event (T : Type) :=
| StError (msg : str)
| StWarning (msg : str)
| StSuccess (msg : str)
| StHeader (msg : str)
| StExpanderWrite (label text : str)
| StProgress (value : nat) (text : str)
| StProgressEmpty
| StVideo (data : bytes)
| StDownloadButton (label : str) (data : bytes) (file_name mime : str)
| TimeSleep (secs : nat)
| Call_transcribe_audio (audio_path : path)
| Call_generate_image_for_sentence (sentence style_prompt : str) (index : nat)
| Call_create_video_from_images (image_paths : list path) (audio_path output_path : path)
| WriteVideofile (clip : video_clip T) (output_path : path) (codec : str) (fps : nat).
Arguments StError {T} msg.
Arguments StWarning {T} msg.
Arguments StSuccess {T} msg.
Arguments StHeader {T} msg.
Arguments StExpanderWrite {T} label text.
Arguments StProgress {T} value text.
Arguments StProgressEmpty {T}.
Arguments StVideo {T} data.
Arguments StDownloadButton {T} label data file_name mime.
Arguments TimeSleep {T} secs.
Arguments Call_transcribe_audio {T} audio_path.
Arguments Call_generate_image_for_sentence {T} sentence style_prompt index.
Arguments Call_create_video_from_images {T} image_paths audio_path output_path.
Arguments WriteVideofile {T} clip output_path codec fps.

(** The world a run acts on: the files under the working directory and
    the events so far, oldest first.  A regular file is keyed by its
    path relative to the working directory, in normal form (no "." or
    ".." component, no empty one); its directories are those that its
    path goes through.  A key that ends with '/' stands for a directory
    that may hold nothing.  [temp] exists. *)
Record world (T : Type) := {
  fs : gmap (list N) (list Byte.byte);
  log : list (event T)
}.
Arguments fs {T} _.
Arguments log {T} _.

(** What an encoding that fails leaves behind: the temporary audio track
    and the part of the output written so far, each if it was begun. *)
Record leftovers := {
  left_audio : option bytes;
  left_output : option bytes
}.

(** The external services and libraries.  A request to the image service
    or a download may fail once and succeed later with the same
    arguments, so their outcome is indexed by the number of the request
    within the run: the index of the sentence, one request per sentence. *)
Record services (T : Type) := {
  (* client.audio.transcriptions.create(model="whisper-1", file=f).text *)
  transcriptions_create : bytes -> exn + str;
  (* client.images.generate(model="dall-e-3", prompt=p, ...).data[0].url *)
  images_generate : nat -> str -> exn + str;
  (* requests.get(url).content *)
  requests_get : nat -> str -> exn + bytes;
  (* open(path, "wb"): the error raised, if any; a failing open creates
     and truncates nothing, and a write to an opened file completes *)
  open_wb : path -> option exn;
  (* AudioFileClip(path).duration, from the content of the file *)
  audio_file_duration : bytes -> exn + T;
  (* ImageClip(path): the error raised on the content of the file, if any *)
  image_load : bytes -> option exn;
  (* what write_videofile encodes: the bytes of the video, or the error
     raised with what the failed encoding has left behind *)
  encode_video : video_clip T -> str -> nat -> exn * leftovers + bytes;
  (* the order of os.listdir, which is arbitrary: by increasing rank *)
  listdir_rank : str -> nat
}.
Arguments transcriptions_create {T} _.
Arguments images_generate {T} _.
Arguments requests_get {T} _.
Arguments open_wb {T} _.
Arguments audio_file_duration {T} _.
Arguments image_load {T} _.
Arguments encode_video {T} _.
Arguments listdir_rank {T} _.

(** How a computation ends: with a value, with an exception that
    propagates, or halted by [st.stop()] (a [BaseException] of Streamlit,
    which [except Exception] does not catch). *)
Inductive outcome (A : Type) :=
| Return (a : A)
| Raise (e : exn)
| Stopped.
Arguments Return {A} a.
Arguments Raise {A} e.
Arguments Stopped {A}.

Definition M (T A : Type) : Type := world T -> outcome A * world T.

Section Monad.
Context {T : Type}.

Definition ret {A} (a : A) : M T A := fun w => (Return a, w).

Definition bind {A B} (c : M T A) (k : A -> M T B) : M T B :=
  fun w =>
    match c w with
    | (Return a, w') => k a w'
    | (Raise e, w') => (Raise e, w')
    | (Stopped, w') => (Stopped, w')
    end.

Definition raise {A} (e : exn) : M T A := fun w => (Raise e, w).

(** [try: body / except Exception as e: handler(e)] *)
Definition try_except {A} (body : M T A) (handler : exn -> M T A) : M T A :=
  fun w =>
    match body w with
    | (Raise e, w') => handler e w'
    | r => r
    end.

Definition lift {A} (r : exn + A) : M T A :=
  match r with
  | inl e => raise e
  | inr a => ret a
  end.

Definition emit (e : event T) : M T unit :=
  fun w => (Return tt, {| fs := fs w; log := log w ++ [e] |}).

End Monad.

Notation "'let*' x ':=' c 'in' k" := (bind c (fun x => k))
  (at level 10, x name, c at level 100, k at level 200, only parsing).

Section Primitives.
Context {T : Type} (svc : services T).

(** Streamlit *)
Definition st_error (msg : str) : M T unit := emit (StError msg).
Definition st_warning (msg : str) : M T unit := emit (StWarning msg).
Definition st_stop {A} : M T A := fun w => (Stopped, w).

(** [with open(p, "wb") as f: f.write(data)].  [open] either raises,
    and then has created and truncated nothing, or it succeeds, and the
    file then holds [data]: a write that fails half-way is not modelled. *)
Definition write_file (p : path) (data : bytes) : M T unit :=
  match open_wb svc p with
  | Some e => raise e
  | None => fun w => (Return tt, {| fs := <[p := data]> (fs w); log := log w |})
  end.

(** [open(p, "rb").read()] *)
Definition read_file (p : path) : M T bytes :=
  fun w =>
    match fs w !! p with
    | Some data => (Return data, w)
    | None => (Raise (FileNotFoundError p), w)
    end.

(** The rest of [s] after [p], when [s] starts with [p]. *)
Fixpoint strip_prefix (p s : str) : option str :=
  match p, s with
  | [], _ => Some s
  | a :: p', b :: s' => if char_eqb a b then strip_prefix p' s' else None
  | _ :: _, [] => None
  end.

(** A name that a directory entry can have: not empty, without '/', and
    neither "." nor "..". *)
Definition is_special (n : str) : bool :=
  bool_decide (n = [dot]) || bool_decide (n = [dot; dot]).

Definition is_file_name (n : str) : bool :=
  truthy n && forallb (fun c => negb (char_eqb c slash)) n && negb (is_special n).

(** The name of the file [k] when it lies directly inside [d]. *)
Definition entry_name (d k : path) : option str :=
  match strip_prefix (d ++ [slash]) k with
  | Some n => if is_file_name n then Some n else None
  | None => None
  end.

(** The first component of a relative path. *)
Fixpoint first_component (r : str) : str :=
  match r with
  | [] => []
  | c :: r' => if char_eqb c slash then [] else c :: first_component r'
  end.

(** The entry of [d] that the key [k] shows: the file [k] itself when it
    lies directly inside [d], the sub-directory of [d] that it goes
    through otherwise. *)
Definition entry_of (d k : path) : option str :=
  match strip_prefix (d ++ [slash]) k with
  | Some r =>
      let n := first_component r in
      if is_file_name n then Some n else None
  | None => None
  end.

(** [p] is a directory: some key goes through it. *)
Definition is_dir (m : gmap (list N) (list Byte.byte)) (p : path) : bool :=
  existsb (fun k => bool_decide (is_Some (strip_prefix (p ++ [slash]) k)))
    (map fst (map_to_list m)).

(** [os.listdir(d)]: the names of the files and of the sub-directories of
    [d], each once, in the order of their ranks. *)
Definition rank_le (a b : str) : Prop :=
  listdir_rank svc a <= listdir_rank svc b.

#[global] Instance rank_le_dec : RelDecision rank_le :=
  fun a b => decide (listdir_rank svc a <= listdir_rank svc b).

Definition os_listdir (d : path) : M T (list str) :=
  fun w =>
    (Return
       (merge_sort rank_le
          (remove_dups (omap (entry_of d) (map fst (map_to_list (fs w)))))),
     w).

(** [os.remove(p)]: removes a regular file and refuses a directory
    (with IsADirectoryError, as on Linux). *)
Definition os_remove (p : path) : M T unit :=
  fun w =>
    match fs w !! p with
    | Some _ => (Return tt, {| fs := delete p (fs w); log := log w |})
    | None =>
        if is_dir (fs w) p then (Raise (IsADirectoryError p), w)
        else (Raise (FileNotFoundError p), w)
    end.

(** [os.path.basename(p)] and [os.path.splitext(b)] of [posixpath]:
    [rsplit c s] cuts [s] at the last [c]. *)
Fixpoint rsplit (c : char) (s : str) : option (str * str) :=
  match s with
  | [] => None
  | a :: s' =>
      match rsplit c s' with
      | Some (b, t) => Some (a :: b, t)
      | None => if char_eqb a c then Some ([], s') else None
      end
  end.

Definition basename (p : path) : str :=
  match rsplit slash p with
  | Some (_, t) => t
  | None => p
  end.

Definition splitext (b : str) : str * str :=
  match rsplit dot b with
  | Some (stem, e) =>
      if existsb (fun c => negb (char_eqb c dot)) stem then (stem, dot :: e)
      else (b, [])
  | None => (b, [])
  end.

(** [s.lower()] on the letters A to Z. *)
Definition lower (s : str) : str :=
  map (fun c => if ((65 <=? c) && (c <=? 90))%N then (c + 32)%N else c) s.

(** [enumerate(l)] *)
Definition enumerate {A} (l : list A) : list (nat * A) :=
  zip (seq 0 (length l)) l.

(** [for x in l: body(x)] *)
Fixpoint for_each {A} (l : list A) (body : A -> M T unit) : M T unit :=
  match l with
  | [] => ret tt
  | x :: l' => let* _ := body x in for_each l' body
  end.

End Primitives.

End Runtime.

Import Runtime.

(** ** The pipeline *)

Module Pipeline.

(** The styles offered by the select box and [style_options[...]]. *)
Inductive style :=
| Padrao
| Cartoon
| MaisDetalhado.

Definition style_options (s : style) : str :=
  match s with
  | Padrao => lit "Mantenha o estilo de desenho o mais simples possível."
  | Cartoon => lit "Use um estilo de desenho animado (cartoon) amigável e expressivo."
  | MaisDetalhado => lit "Adicione um pouco mais de detalhes e sombreamento leve, mas ainda mantendo a aparência de quadro branco."
  end.

(** What the user did before the script runs. *)
Record uploaded := {
  name : str;
  getbuffer : bytes
}.

Record ui := {
  uploaded_file : option uploaded;
  selected_style : style;
  button : bool
}.

Definition temp : path := lit "temp".
Definition final_animation : path := lit "final_animation.mp4".

Definition base_prompt : str :=
  lit "Crie uma ilustração no estilo de animação de quadro branco (video scribing), "
  ++ lit "minimalista, com desenhos de linha simples em preto sobre um fundo totalmente branco. "
  ++ lit "A imagem deve ser limpa e clara, como se estivesse sendo desenhada em tempo real. "
  ++ lit "Ilustre o seguinte conceito ou cena: ".

(** [f"{base_prompt} '{sentence}'. {style_prompt}"] *)
Definition full_prompt_of (sentence style_prompt : str) : str :=
  base_prompt ++ lit " '" ++ sentence ++ lit "'. " ++ style_prompt.

(** [os.path.join("temp", f"image_{index}.png")] *)
Definition image_path_of (index : nat) : path :=
  path_join temp (lit "image_" ++ of_nat index ++ lit ".png").

(** The temporary audio file of [write_videofile], in the working
    directory: the name of the output without its extension, then
    "TEMP_MPY_wvf_snd." and the extension of the audio codec, which is
    "ogg" for an output in ".ogv" or ".webm" and "mp3" otherwise. *)
Definition temp_audiofile (output_path : path) : path :=
  let '(name, ext) := splitext (basename output_path) in
  let ext := lower (tail ext) in
  let audio_ext :=
    if bool_decide (ext = lit "ogv") || bool_decide (ext = lit "webm")
    then lit "ogg" else lit "mp3" in
  name ++ lit "TEMP_MPY_wvf_snd." ++ audio_ext.

(** The files with [behind], if any, written at [p]. *)
Definition put (p : path) (behind : option bytes)
    (m : gmap (list N) (list Byte.byte)) : gmap (list N) (list Byte.byte) :=
  match behind with
  | Some data => <[p := data]> m
  | None => m
  end.

Section Functions.
Context {T : Type} `{Seconds T} (svc : services T).

(** [[
    def transcribe_audio(audio_path):
        with open(audio_path, "rb") as audio_file:
            transcription = client.audio.transcriptions.create(...)
        return transcription.text
    ]] *)
Definition transcribe_audio (audio_path : path) : M T str :=
  let* _ := emit (Call_transcribe_audio audio_path) in
  let* audio_file := read_file audio_path in
  lift (transcriptions_create svc audio_file).

(** [[
    def generate_image_for_sentence(sentence, style_prompt, index):
        full_prompt = f"{base_prompt} '{sentence}'. {style_prompt}"
        try:
            response = client.images.generate(...)
            image_url = response.data[0].url
            image_data = requests.get(image_url).content
            image_path = os.path.join("temp", f"image_{index}.png")
            with open(image_path, "wb") as f:
                f.write(image_data)
            return image_path
        except Exception as e:
            st.error(f"Erro ao gerar imagem para: '{sentence}'. Erro: {e}")
            return None
    ]] *)
Definition generate_image_for_sentence
    (sentence style_prompt : str) (index : nat) : M T (option path) :=
  let* _ := emit (Call_generate_image_for_sentence sentence style_prompt index) in
  let full_prompt := full_prompt_of sentence style_prompt in
  try_except
    (let* image_url := lift (images_generate svc index full_prompt) in
     let* image_data := lift (requests_get svc index image_url) in
     let image_path := image_path_of index in
     let* _ := write_file svc image_path image_data in
     ret (Some image_path))
    (fun e =>
       let* _ := st_error (lit "Erro ao gerar imagem para: '" ++ sentence
                           ++ lit "'. Erro: " ++ exn_str e) in
       ret None).

(** The video library. *)
Definition AudioFileClip (p : path) : M T (audio_clip T) :=
  let* data := read_file p in
  let* d := lift (audio_file_duration svc data) in
  ret {| audio_source := p; audio_duration := d |}.

Definition ImageClip (p : path) : M T (image_clip T) :=
  let* data := read_file p in
  match image_load svc data with
  | Some e => raise e
  | None => ret {| clip_image := p; clip_duration := None; clip_effects := [] |}
  end.

Definition set_duration (c : image_clip T) (d : T) : image_clip T :=
  {| clip_image := clip_image c;
     clip_duration := Some d;
     clip_effects := clip_effects c |}.

Definition fadein (c : image_clip T) (d : T) : image_clip T :=
  {| clip_image := clip_image c;
     clip_duration := clip_duration c;
     clip_effects := clip_effects c ++ [FadeIn d] |}.

(** [concatenate_videoclips(clips, method="compose")]: the clips one
    after the other, the duration being the running sum of theirs, from
    0 and in order; a clip without duration is an error. *)
Definition concatenate_videoclips (clips : list (image_clip T)) : M T (video_clip T) :=
  match mapM clip_duration clips with
  | Some ds =>
      ret {| video_clips := clips;
             video_duration := fold_left sec_add ds sec_zero;
             video_audio := None |}
  | None => raise (ServiceError (lit "unsupported operand type(s) for +"))
  end.

Definition set_audio (v : video_clip T) (a : audio_clip T) : video_clip T :=
  {| video_clips := video_clips v;
     video_duration := video_duration v;
     video_audio := Some a |}.

(** [final_clip.write_videofile(output_path, codec=codec, fps=fps)]: the
    audio track of the clip, when it has one, is first encoded into the
    temporary file [temp_audiofile output_path], then the video is
    encoded into [output_path], then the temporary file is removed.  An
    encoding that fails leaves behind what it has written. *)
Definition write_videofile
    (v : video_clip T) (output_path : path) (codec : str) (fps : nat) : M T unit :=
  let* _ := emit (WriteVideofile v output_path codec fps) in
  let audiofile := temp_audiofile output_path in
  let make_audio := match video_audio v with Some _ => true | None => false end in
  match encode_video svc v codec fps with
  | inr data =>
      fun w =>
        let written := <[output_path := data]> (fs w) in
        (Return tt,
         {| fs := if make_audio then delete audiofile written else written;
            log := log w |})
  | inl (e, behind) =>
      fun w =>
        let with_audio :=
          if make_audio then put audiofile (left_audio behind) (fs w) else fs w in
        (Raise e,
         {| fs := put output_path (left_output behind) with_audio; log := log w |})
  end.

(** [total_duration / len(image_paths)] *)
Definition true_div (a : T) (n : nat) : M T T :=
  match n with
  | O => raise ZeroDivisionError
  | S _ => ret (sec_div a n)
  end.

(** The loop of [create_video_from_images], [clips] being the list built
    so far. *)
Fixpoint for_image_paths
    (image_paths : list path) (duration_per_image : T)
    (clips : list (image_clip T)) : M T (list (image_clip T)) :=
  match image_paths with
  | [] => ret clips
  | image_path :: rest =>
      let* clip := ImageClip image_path in
      let clip := set_duration clip duration_per_image in
      let clip := fadein clip sec_half in
      for_image_paths rest duration_per_image (clips ++ [clip])
  end.

(** [[
    def create_video_from_images(image_paths, audio_path,
                                 output_path="final_animation.mp4"):
        audio_clip = AudioFileClip(audio_path)
        total_duration = audio_clip.duration
        duration_per_image = total_duration / len(image_paths)
        clips = []
        for image_path in image_paths:
            clip = ImageClip(image_path).set_duration(duration_per_image)
            clip = clip.fadein(0.5)
            clips.append(clip)
        final_clip = concatenate_videoclips(clips, method="compose")
        final_clip = final_clip.set_audio(audio_clip)
        final_clip.write_videofile(output_path, codec="libx264", fps=24)
        return output_path
    ]] *)
Definition create_video_from_images
    (image_paths : list path) (audio_path output_path : path) : M T path :=
  let* _ := emit (Call_create_video_from_images image_paths audio_path output_path) in
  let* audio_clip := AudioFileClip audio_path in
  let total_duration := audio_duration audio_clip in
  let* duration_per_image := true_div total_duration (length image_paths) in
  let* clips := for_image_paths image_paths duration_per_image [] in
  let* final_clip := concatenate_videoclips clips in
  let final_clip := set_audio final_clip audio_clip in
  let* _ := write_videofile final_clip output_path (lit "libx264") 24 in
  ret output_path.

(** The loop of the handler over [items], what is left of
    [enumerate(sentences)], [image_paths] being the list built so far.
    [int(80 * (i + 1) / total_sentences)] is the integer quotient: the
    float quotient of two small integers truncates to it. *)
Fixpoint for_sentences
    (style_prompt : str) (total_sentences : nat)
    (items : list (nat * str)) (image_paths : list path) : M T (list path) :=
  match items with
  | [] => ret image_paths
  | (i, sentence) :: rest =>
      let progress_text :=
        lit "Passo 2/3: Gerando imagem " ++ of_nat (i + 1) ++ lit "/"
        ++ of_nat total_sentences ++ lit "..." in
      let current_progress := 10 + (80 * (i + 1)) / total_sentences in
      let* _ := emit (StProgress current_progress progress_text) in
      let* image_path := generate_image_for_sentence sentence style_prompt i in
      let image_paths :=
        match image_path with
        | Some p => if truthy p then image_paths ++ [p] else image_paths
        | None => image_paths
        end in
      for_sentences style_prompt total_sentences rest image_paths
  end.

(** The end of the handler: [for file in os.listdir("temp"):
    os.remove(os.path.join("temp", file))]. *)
Definition cleanup : M T unit :=
  let* files := os_listdir svc temp in
  for_each files (fun file => os_remove (path_join temp file)).

(** The body of [if st.button("Gerar Animação ✨"):]. *)
Definition button_handler (u : ui) : M T unit :=
  match uploaded_file u with
  | Some f =>
      let audio_path := path_join temp (name f) in
      let* _ := write_file svc audio_path (getbuffer f) in
      let* _ := emit (StProgress 0 (lit "Iniciando o processo...")) in
      let* _ := emit (StProgress 10 (lit "Passo 1/3: Transcrevendo o áudio...")) in
      let* transcribed_text := transcribe_audio audio_path in
      let* _ := emit (StExpanderWrite (lit "Ver transcrição do áudio") transcribed_text) in
      let sentences := segment_text transcribed_text in
      let* _ :=
        match sentences with
        | [] =>
            let* _ := st_error (lit "Não foi possível extrair sentenças do áudio. Tente um áudio mais claro.") in
            st_stop
        | _ :: _ => ret tt
        end in
      let total_sentences := length sentences in
      let* image_paths :=
        for_sentences (style_options (selected_style u)) total_sentences
          (enumerate sentences) [] in
      let* _ :=
        match image_paths with
        | [] =>
            let* _ := st_error (lit "Nenhuma imagem foi gerada. Verifique os logs de erro.") in
            st_stop
        | _ :: _ => ret tt
        end in
      let* _ := emit (StProgress 95 (lit "Passo 3/3: Montando o vídeo final...")) in
      let* video_path := create_video_from_images image_paths audio_path final_animation in
      let* _ := emit (StProgress 100 (lit "Processo concluído!")) in
      let* _ := emit (TimeSleep 1) in
      let* _ := emit StProgressEmpty in
      let* _ := emit (StSuccess (lit "Animação criada com sucesso!")) in
      let* _ := emit (StHeader (lit "Assista sua Animação!")) in
      let* video_bytes := read_file video_path in
      let* _ := emit (StVideo video_bytes) in
      let* _ := emit (StDownloadButton (lit "Baixar Vídeo 📥") video_bytes
                        (lit "animacao_gerada.mp4") (lit "video/mp4")) in
      cleanup
  | None =>
      st_warning (lit "Por favor, faça o upload de um arquivo de áudio primeiro.")
  end.

(** One run of the script below the widgets. *)
Definition run_script (u : ui) : M T unit :=
  if button u then button_handler u else ret tt.

End Functions.

End Pipeline.

Import Pipeline.

(** ** Vocabulary of the properties *)

(** One of the three characters at which [segment_text] cuts. *)
Definition is_delimiter (c : char) : bool :=
  char_eqb c dot || char_eqb c bang || char_eqb c qmark.

(** No character of the string is a delimiter. *)
Definition no_delimiter (s : str) : bool :=
  forallb (fun c => negb (is_delimiter c)) s.

(** The transcript after the two [replace] calls of [segment_text]. *)
Definition normalized (text : str) : str :=
  replace qmark dot (replace bang dot text).

(** A string is trimmed when neither its first nor its last character is
    white space. *)
Definition trimmed (s : str) : Prop :=
  (forall c, head s = Some c -> isspace c = false)
  /\ (forall c, last s = Some c -> isspace c = false).

Section RunVocabulary.
Context {T : Type} (svc : services T).

(** What the [try] block of [generate_image_for_sentence] comes to for
    the sentence of number [index]: the exception raised in it (by the
    request, by the download or by the opening of the file), or the
    image data saved under [image_path_of index]. *)
Definition attempt (style_prompt : str) (index : nat) (sentence : str) : exn + bytes :=
  match images_generate svc index (full_prompt_of sentence style_prompt) with
  | inl e => inl e
  | inr image_url =>
      match requests_get svc index image_url with
      | inl e => inl e
      | inr image_data =>
          match open_wb svc (image_path_of index) with
          | Some e => inl e
          | None => inr image_data
          end
      end
  end.

(** The illustration of a sentence succeeds. *)
Definition succeeds (style_prompt : str) (item : nat * str) : bool :=
  match attempt style_prompt item.1 item.2 with
  | inr _ => true
  | inl _ => false
  end.

(** The image paths of the numbered sentences that succeed, in order. *)
Definition successful_paths (style_prompt : str) (items : list (nat * str)) : list path :=
  map (fun item => image_path_of item.1) (filter (fun item => succeeds style_prompt item = true) items).

(** The calls of the pipeline functions among some events. *)
Definition is_assembler_call (e : event T) : bool :=
  match e with
  | Call_create_video_from_images _ _ _ => true
  | _ => false
  end.

Definition illustrator_call (e : event T) : option (nat * str) :=
  match e with
  | Call_generate_image_for_sentence sentence _ index => Some (index, sentence)
  | _ => None
  end.

Definition illustrator_calls (l : list (event T)) : list (nat * str) :=
  omap illustrator_call l.

(** The event is not, the events are not, a call of the assembler. *)
Definition quiet (e : event T) : Prop := is_assembler_call e = false.

Definition no_assembler_call (l : list (event T)) : Prop := Forall quiet l.

(** The data is what some download returned. *)
Definition downloaded (data : bytes) : Prop :=
  exists index image_url, requests_get svc index image_url = inr data.

(** A computation only adds events, all of them satisfying [P]. *)
Definition appends {A} (P : event T -> Prop) (c : M T A) : Prop :=
  forall w, exists l, log (c w).2 = log w ++ l /\ Forall P l.

(** What [write_videofile] comes to, from the files [m], for a clip with
    an audio track: the result and the files afterwards. *)
Definition encoded
    (v : video_clip T) (output_path : path) (m : gmap (list N) (list Byte.byte))
    : outcome path * gmap (list N) (list Byte.byte) :=
  match encode_video svc v (lit "libx264") 24 with
  | inl (e, behind) =>
      (Raise e,
       put output_path (left_output behind)
         (put (temp_audiofile output_path) (left_audio behind) m))
  | inr data =>
      (Return output_path,
       delete (temp_audiofile output_path) (<[output_path := data]> m))
  end.

(** The key [k] goes through the directory [p]. *)
Definition through (p k : path) : Prop := exists t, k = p ++ slash :: t.

(** The scratch directory has no sub-directory: every key that goes
    through it is a file directly inside it. *)
Definition flat_temp (m : gmap (list N) (list Byte.byte)) : bool :=
  forallb
    (fun k =>
       match strip_prefix (temp ++ [slash]) k with
       | Some r => is_file_name r
       | None => true
       end)
    (map fst (map_to_list m)).

(** [p] names a file directly inside the scratch directory. *)
Definition in_temp (p : path) : bool :=
  match entry_name temp p with
  | Some _ => true
  | None => false
  end.

End RunVocabulary.

(** The clip that [create_video_from_images] builds for one image. *)
Definition clip_for {T : Type} `{Seconds T} (d : T) (p : path) : image_clip T :=
  {| clip_image := p; clip_duration := Some d; clip_effects := [FadeIn sec_half] |}.

(** The clip that it hands to the encoder, for an audio track of
    duration [D]. *)
Definition final_clip_for {T : Type} `{Seconds T}
    (image_paths : list path) (audio_path : path) (D : T) : video_clip T :=
  let d := sec_div D (length image_paths) in
  {| video_clips := map (clip_for d) image_paths;
     video_duration := fold_left sec_add (map (fun _ => d) image_paths) sec_zero;
     video_audio := Some {| audio_source := audio_path; audio_duration := D |} |}.

(** ** A sample environment

    Services that answer every request, except that the image service
    refuses the requests whose number is in [failing]. *)

Module Sample.

Definition png : bytes := [Byte.x89; Byte.x50; Byte.x4e; Byte.x47].
Definition mp3 : bytes := [Byte.x49; Byte.x44; Byte.x33].
Definition mp4 : bytes := [Byte.x00; Byte.x00; Byte.x00; Byte.x18].

Definition services_of {T : Type} (D : T) (text : str) (failing : list nat) : services T := {|
  transcriptions_create := fun _ => inr text;
  images_generate := fun index _ =>
    if existsb (Nat.eqb index) failing
    then inl (ServiceError (lit "Rate limit exceeded"))
    else inr (lit "https://images.example/" ++ of_nat index);
  requests_get := fun _ _ => inr png;
  open_wb := fun _ => None;
  audio_file_duration := fun _ => inr D;
  image_load := fun _ => None;
  encode_video := fun _ _ _ => inr mp4;
  listdir_rank := fun name => length name
|}.

Definition hello : str := lit "Hello world. This is a test.".

(** A transcript without any sentence. *)
Definition silence : str := lit " ... ?! ".

Definition recording : uploaded := {| name := lit "talk.mp3"; getbuffer := mp3 |}.

Definition upload : ui := {|
  uploaded_file := Some recording;
  selected_style := Cartoon;
  button := true
|}.

(** Every request answered; the first image refused; both refused; no
    sentence in the transcript. *)
Definition all_fine : services float := services_of 10%float hello [].
Definition first_refused : services float := services_of 10%float hello [0].
Definition all_refused : services float := services_of 10%float hello [0; 1].
Definition nothing_said : services float := services_of 10%float silence [].

(** Two images. *)
Definition two_images : list path := [image_path_of 0; image_path_of 1].

Definition empty_world {T : Type} : world T := {| fs := ∅; log := [] |}.

(** A world in which the audio and two images are in place. *)
Definition talk : path := lit "temp/talk.mp3".

Definition staged {T : Type} : world T := {|
  fs := list_to_map [(talk, mp3); (image_path_of 0, png); (image_path_of 1, png)];
  log := []
|}.

(** A second of audio, and a world in which the audio and ten images are
    in place. *)
Definition one_second : services float := services_of 1%float hello [].

Definition ten_staged {T : Type} : world T := {|
  fs := list_to_map ((talk, mp3) :: map (fun i => (image_path_of i, png)) (seq 0 10));
  log := []
|}.



End Sample.

(** ** Vocabulary of the further properties *)

(** The delimiters of a text, and its characters that are neither white
    space nor delimiters: what the sentences are made of. *)
Definition delimiters_of (t : str) : str :=
  filter (fun c => is_delimiter c = true) t.

Definition ink (t : str) : str :=
  filter (fun c => isspace c = false /\ is_delimiter c = false) t.

(** The characters of a text that are no white space. *)
Definition visible (t : str) : str :=
  filter (fun c => isspace c = false) t.

Section MoreVocabulary.
Context {T : Type} (svc : services T).

(** A computation leaves the files as they are. *)
Definition reads_only {A} (c : M T A) : Prop :=
  forall w, fs (c w).2 = fs w.

(** What a call of the assembler for the output [q] may do to the files
    [m]: it changes no file other than [q] and the temporary audio file
    of the encoder; and when it returns, it returns [q], [q] holds what
    the encoder has produced and the temporary audio file is not there. *)
Definition writes_output
    (q : path) (m : gmap (list N) (list Byte.byte))
    (end_of_call : outcome path * world T) : Prop :=
  (forall p, p <> q -> p <> temp_audiofile q -> fs end_of_call.2 !! p = m !! p)
  /\ match end_of_call.1 with
     | Return x =>
         x = q
         /\ exists v data,
              encode_video svc v (lit "libx264") 24 = inr data
              /\ fs end_of_call.2 = delete (temp_audiofile q) (<[q := data]> m)
     | _ => True
     end.

(** The illustration of a sentence fails before any file is opened: the
    request to the image service or the download raises. *)
Definition fetch_fails (style_prompt : str) (index : nat) (sentence : str) : bool :=
  match images_generate svc index (full_prompt_of sentence style_prompt) with
  | inl _ => true
  | inr image_url =>
      match requests_get svc index image_url with
      | inl _ => true
      | inr _ => false
      end
  end.

(** The image at [p] is there and can be loaded. *)
Definition loadable (m : gmap (list N) (list Byte.byte)) (p : path) : bool :=
  match m !! p with
  | Some data =>
      match image_load svc data with
      | None => true
      | Some _ => false
      end
  | None => false
  end.

(** The exception that the assembler raises when it is given no image. *)
Definition no_images_error (m : gmap (list N) (list Byte.byte)) (audio_path : path) : exn :=
  match m !! audio_path with
  | None => FileNotFoundError audio_path
  | Some data =>
      match audio_file_duration svc data with
      | inl e => e
      | inr _ => ZeroDivisionError
      end
  end.

(** A computation does not remove the file [p]. *)
Definition keeps {A} (p : path) (c : M T A) : Prop :=
  forall w, is_Some (fs w !! p) -> is_Some (fs (c w).2 !! p).

(** The download button. *)
Definition is_download (e : event T) : bool :=
  match e with
  | StDownloadButton _ _ _ _ => true
  | _ => false
  end.

(** A computation does not remove the file [p] before it has shown the
    download button. *)
Definition keeps_until_offered {A} (p : path) (c : M T A) : Prop :=
  forall w, is_Some (fs w !! p) ->
    exists l, log (c w).2 = log w ++ l
              /\ (is_Some (fs (c w).2 !! p)
                  \/ Exists (fun e => is_download e = true) l).

(** A call of the assembler as the handler makes it: with at least one
    image, all of them files directly inside "temp", and for the output
    "final_animation.mp4". *)
Definition well_called (e : event T) : Prop :=
  match e with
  | Call_create_video_from_images image_paths _ output_path =>
      image_paths <> []
      /\ Forall (fun p => in_temp p = true) image_paths
      /\ output_path = final_animation
  | _ => True
  end.

(** A value that the progress bar accepts. *)
Definition in_range (e : event T) : Prop :=
  match e with
  | StProgress value _ => value <= 100
  | _ => True
  end.

End MoreVocabulary.

(** A transcription service that is down, and a scratch directory that
    holds a sub-directory. *)
Module MoreSamples.

Definition nested : path := lit "temp/frames_of_an_earlier_run/0001.png".

Definition with_subdirectory {T : Type} : world T := {|
  fs := {[ nested := Sample.png ]};
  log := []
|}.

Definition deaf : services float := {|
  transcriptions_create := fun _ => inl (ServiceError (lit "Connection error."));
  images_generate := images_generate Sample.all_fine;
  requests_get := requests_get Sample.all_fine;
  open_wb := open_wb Sample.all_fine;
  audio_file_duration := audio_file_duration Sample.all_fine;
  image_load := image_load Sample.all_fine;
  encode_video := encode_video Sample.all_fine;
  listdir_rank := listdir_rank Sample.all_fine
|}.

End MoreSamples.

(** * Properties *)

(** ** Strings *)

Section StringFacts.
Implicit Types (s p : list N) (c : N).

Lemma char_eqb_eq a b : char_eqb a b = true <-> a = b.
Proof. apply N.eqb_eq. Qed.

Lemma char_eqb_neq a b : char_eqb a b = false <-> a <> b.
Proof. apply N.eqb_neq. Qed.

Lemma truthy_true s : truthy s = true <-> s <> [].
Proof. destruct s; simpl; split; congruence. Qed.

Lemma truthy_false s : truthy s = false <-> s = [].
Proof. destruct s; simpl; split; congruence. Qed.

(** *** strip *)

Lemma lstrip_elem c s : c ∈ lstrip s -> c ∈ s.
Proof.
  induction s as [|a s IH]; simpl; [done|].
  destruct (isspace a); [|done].
  intros Hc. right. by apply IH.
Qed.

Lemma rstrip_cons a s :
  rstrip (a :: s) = if truthy (rstrip s) then a :: rstrip s
                    else if isspace a then [] else [a].
Proof. simpl. by destruct (rstrip s). Qed.

Lemma rstrip_elem c s : c ∈ rstrip s -> c ∈ s.
Proof.
  induction s as [|a s IH]; [done|].
  rewrite rstrip_cons.
  destruct (truthy (rstrip s)).
  - intros [->|Hc]%elem_of_cons; [left|right; by apply IH].
  - destruct (isspace a); [by intros ?%elem_of_nil|].
    intros ->%list_elem_of_singleton. left.
Qed.

Lemma strip_elem c s : c ∈ strip s -> c ∈ s.
Proof. intros Hc. by apply lstrip_elem, rstrip_elem. Qed.

Lemma lstrip_keeps c s : c ∈ s -> isspace c = false -> c ∈ lstrip s.
Proof.
  induction s as [|a s IH]; simpl; [done|].
  intros [->|Hc]%elem_of_cons Hsp.
  - rewrite Hsp. left.
  - destruct (isspace a); [by apply IH|by right].
Qed.

Lemma rstrip_keeps c s : c ∈ s -> isspace c = false -> c ∈ rstrip s.
Proof.
  induction s as [|a s IH]; [done|].
  rewrite rstrip_cons.
  intros [->|Hc]%elem_of_cons Hsp.
  - rewrite Hsp. destruct (truthy (rstrip s)); left.
  - specialize (IH Hc Hsp).
    destruct (rstrip s) as [|b r] eqn:E; [by apply elem_of_nil in IH|].
    simpl. by right.
Qed.

Lemma strip_keeps c s : c ∈ s -> isspace c = false -> c ∈ strip s.
Proof. intros Hc Hsp. by apply rstrip_keeps; [apply lstrip_keeps|]. Qed.

Lemma lstrip_head c s : head (lstrip s) = Some c -> isspace c = false.
Proof.
  induction s as [|a s IH]; simpl; [done|].
  destruct (isspace a) eqn:E; [done|].
  simpl. by intros [= <-].
Qed.

Lemma rstrip_head s : rstrip s <> [] -> head (rstrip s) = head s.
Proof.
  destruct s as [|a s]; [done|].
  rewrite rstrip_cons.
  destruct (truthy (rstrip s)); [done|].
  by destruct (isspace a).
Qed.

Lemma rstrip_last c s : last (rstrip s) = Some c -> isspace c = false.
Proof.
  induction s as [|a s IH]; [done|].
  rewrite rstrip_cons.
  destruct (rstrip s) as [|b r] eqn:E; simpl.
  - destruct (isspace a) eqn:Ea; simpl; [done|]. by intros [= <-].
  - intros Hl. by apply IH.
Qed.

Lemma strip_trimmed s : trimmed (strip s).
Proof.
  split; intros c Hc.
  - unfold strip in Hc.
    destruct (decide (rstrip (lstrip s) = [])) as [E|E].
    + by rewrite E in Hc.
    + rewrite rstrip_head in Hc by done. by apply lstrip_head in Hc.
  - by apply rstrip_last in Hc.
Qed.

Lemma lstrip_fixed s :
  (forall c, head s = Some c -> isspace c = false) -> lstrip s = s.
Proof.
  destruct s as [|a s]; simpl; [done|].
  intros Hh. by rewrite (Hh a).
Qed.

Lemma rstrip_fixed s :
  (forall c, last s = Some c -> isspace c = false) -> rstrip s = s.
Proof.
  induction s as [|a s IH]; [done|].
  intros Hl. rewrite rstrip_cons.
  destruct s as [|b s].
  - simpl. by rewrite (Hl a).
  - rewrite IH; [done|]. intros c Hc. apply Hl. by rewrite last_cons_cons.
Qed.

Lemma strip_fixed s : trimmed s -> strip s = s.
Proof.
  intros [Hh Hl]. unfold strip.
  rewrite lstrip_fixed by done. by apply rstrip_fixed.
Qed.

Lemma strip_idemp s : strip (strip s) = strip s.
Proof. apply strip_fixed, strip_trimmed. Qed.

End StringFacts.

(** *** replace and split *)

Section SplitFacts.
Implicit Types (s p : list N) (c old new sep : N).

Lemma replace_elem c old new s :
  c ∈ replace old new s -> c = new \/ (c ∈ s /\ c <> old).
Proof.
  unfold replace. intros (a & -> & Ha)%list_elem_of_fmap.
  destruct (char_eqb a old) eqn:E; [by left|].
  right. split; [done|]. by apply char_eqb_neq.
Qed.

Lemma replace_keeps c old new s :
  c ∈ s -> c <> old -> c ∈ replace old new s.
Proof.
  intros Hc Hne. unfold replace. apply list_elem_of_fmap.
  exists c. split; [|done].
  apply char_eqb_neq in Hne. by rewrite Hne.
Qed.

Lemma replace_fixed old new s : old ∉ s -> replace old new s = s.
Proof.
  unfold replace. induction s as [|a s IH]; simpl; [done|].
  intros Hn. apply not_elem_of_cons in Hn as [Hne Hn].
  rewrite IH by done.
  assert (char_eqb a old = false) as -> by (apply char_eqb_neq; congruence).
  done.
Qed.

Lemma split_cons sep a s :
  split sep (a :: s) =
    if char_eqb a sep then [] :: split sep s
    else match split sep s with
         | [] => [[a]]
         | p :: ps => (a :: p) :: ps
         end.
Proof. done. Qed.

Lemma split_not_nil sep s : split sep s <> [].
Proof.
  destruct s as [|a s]; simpl; [done|].
  destruct (char_eqb a sep); [done|]. by destruct (split sep s).
Qed.

Lemma split_elem sep s p c : p ∈ split sep s -> c ∈ p -> c ∈ s /\ c <> sep.
Proof.
  revert p. induction s as [|a s IH]; intros p; simpl.
  - intros ->%list_elem_of_singleton Hc. by apply elem_of_nil in Hc.
  - destruct (char_eqb a sep) eqn:E.
    + intros [->|Hp]%elem_of_cons Hc; [by apply elem_of_nil in Hc|].
      destruct (IH p Hp Hc). split; [by right|done].
    + destruct (split sep s) as [|q qs] eqn:Es; [by destruct (split_not_nil sep s)|].
      apply char_eqb_neq in E.
      intros [->|Hp]%elem_of_cons Hc.
      * apply elem_of_cons in Hc as [->|Hc]; [split; [left|done]|].
        destruct (IH q) as [? ?]; [left|done|]. split; [by right|done].
      * destruct (IH p) as [? ?]; [by right|done|]. split; [by right|done].
Qed.

Lemma split_covers sep s c :
  c ∈ s -> c <> sep -> exists p, p ∈ split sep s /\ c ∈ p.
Proof.
  induction s as [|a s IH]; [by intros ?%elem_of_nil|].
  intros Hc Hne. rewrite split_cons.
  destruct (char_eqb a sep) eqn:E.
  - apply char_eqb_eq in E. subst a.
    apply elem_of_cons in Hc as [->|Hc]; [done|].
    destruct (IH Hc Hne) as (p & Hp & Hcp). exists p. split; [by right|done].
  - destruct (split sep s) as [|q qs] eqn:Es; [by destruct (split_not_nil sep s)|].
    apply elem_of_cons in Hc as [->|Hc].
    + exists (a :: q). split; left.
    + destruct (IH Hc Hne) as (p & Hp & Hcp).
      apply elem_of_cons in Hp as [->|Hp].
      * exists (a :: q). split; [left|by right].
      * exists p. split; [by right|done].
Qed.

Lemma split_app_sep sep s t :
  sep ∉ s -> split sep (s ++ sep :: t) = s :: split sep t.
Proof.
  induction s as [|a s IH]; intros Hn.
  - simpl. unfold char_eqb. by rewrite N.eqb_refl.
  - apply not_elem_of_cons in Hn as [Hne Hn].
    rewrite <- app_comm_cons, split_cons, (IH Hn).
    assert (char_eqb a sep = false) as -> by (apply char_eqb_neq; congruence).
    done.
Qed.

Lemma split_fixed sep s : sep ∉ s -> split sep s = [s].
Proof.
  induction s as [|a s IH]; intros Hn; [done|].
  apply not_elem_of_cons in Hn as [Hne Hn].
  rewrite split_cons, (IH Hn).
  assert (char_eqb a sep = false) as -> by (apply char_eqb_neq; congruence).
  done.
Qed.

Lemma is_delimiter_false c :
  is_delimiter c = false <-> c <> dot /\ c <> bang /\ c <> qmark.
Proof.
  unfold is_delimiter. rewrite !orb_false_iff, !char_eqb_neq. tauto.
Qed.

Lemma is_delimiter_true c :
  is_delimiter c = true <-> c = dot \/ c = bang \/ c = qmark.
Proof.
  unfold is_delimiter. rewrite !orb_true_iff, !char_eqb_eq. tauto.
Qed.

End SplitFacts.

(** ** The segmenter *)

Section SegmenterFacts.
Implicit Types (s p t e : list N) (c : N).

Lemma no_delimiter_spec s :
  no_delimiter s = true <-> forall c, c ∈ s -> is_delimiter c = false.
Proof.
  unfold no_delimiter. rewrite forallb_forall. split.
  - intros Hs c Hc%list_elem_of_In. apply Hs in Hc. by apply negb_true_iff.
  - intros Hs c Hc%list_elem_of_In. apply negb_true_iff. by apply Hs.
Qed.

Lemma normalized_elem c t :
  c ∈ normalized t -> c <> dot -> c ∈ t /\ is_delimiter c = false.
Proof.
  unfold normalized. intros [->|[Hc Hq]]%replace_elem Hd; [done|].
  apply replace_elem in Hc as [->|[Hc Hb]]; [done|].
  split; [done|]. by apply is_delimiter_false.
Qed.

Lemma normalized_keeps c t :
  c ∈ t -> is_delimiter c = false -> c ∈ normalized t.
Proof.
  intros Hc (Hd & Hb & Hq)%is_delimiter_false.
  unfold normalized. by apply replace_keeps; [apply replace_keeps|].
Qed.

Lemma normalized_fixed s : no_delimiter s = true -> normalized s = s.
Proof.
  intros Hs. unfold normalized.
  assert (forall d, is_delimiter d = true -> d ∉ s) as Hn.
  { intros d Hd Hin. rewrite no_delimiter_spec in Hs.
    apply Hs in Hin. congruence. }
  rewrite (replace_fixed bang) by (by apply Hn).
  apply replace_fixed. by apply Hn.
Qed.

Lemma normalized_app s t : normalized (s ++ t) = normalized s ++ normalized t.
Proof. unfold normalized, replace. by rewrite !map_app. Qed.

Lemma segment_text_unfold t :
  segment_text t =
    map strip (filter (fun s => truthy (strip s) = true) (split dot (normalized t))).
Proof. done. Qed.

Lemma segment_text_elem e t :
  e ∈ segment_text t <->
  exists p, p ∈ split dot (normalized t) /\ strip p <> [] /\ e = strip p.
Proof.
  rewrite segment_text_unfold. split.
  - intros (p & -> & Hp)%list_elem_of_fmap.
    apply list_elem_of_filter in Hp as [Ht Hp].
    exists p. by rewrite <- truthy_true.
  - intros (p & Hp & Hne & ->). apply list_elem_of_fmap.
    exists p. split; [done|]. apply list_elem_of_filter.
    by rewrite truthy_true.
Qed.

(** The pieces are free of delimiters, trimmed and not empty. *)
Lemma segment_text_pieces e t :
  e ∈ segment_text t -> e <> [] /\ no_delimiter e = true /\ trimmed e.
Proof.
  intros (p & Hp & Hne & ->)%segment_text_elem.
  split; [done|]. split; [|apply strip_trimmed].
  apply no_delimiter_spec. intros c Hc%strip_elem.
  destruct (split_elem _ _ _ _ Hp Hc) as [Hin Hd].
  by destruct (normalized_elem _ _ Hin Hd).
Qed.

(** A string that is free of delimiters is cut into itself alone, trimmed,
    or into nothing when only white space is left. *)
Lemma segment_text_single s :
  no_delimiter s = true ->
  segment_text s = if truthy (strip s) then [strip s] else [].
Proof.
  intros Hs. rewrite segment_text_unfold, (normalized_fixed _ Hs).
  rewrite split_fixed.
  - rewrite filter_cons, filter_nil.
    destruct (truthy (strip s)) eqn:E; by case_decide.
  - intros Hin. rewrite no_delimiter_spec in Hs. by apply Hs in Hin.
Qed.

Lemma segment_text_nonempty_iff t :
  segment_text t <> [] <->
  exists c, c ∈ t /\ isspace c = false /\ is_delimiter c = false.
Proof.
  split.
  - intros Hne. destruct (segment_text t) as [|e l] eqn:E; [done|].
    assert (e ∈ segment_text t) as He by (rewrite E; left).
    apply segment_text_elem in He as (p & Hp & Hs & ->).
    destruct (strip p) as [|c r] eqn:Ep; [done|].
    exists c.
    assert (c ∈ strip p) as Hc by (rewrite Ep; left).
    apply strip_elem in Hc.
    destruct (split_elem _ _ _ _ Hp Hc) as [Hin Hd].
    destruct (normalized_elem _ _ Hin Hd) as [? ?].
    split; [done|]. split; [|done].
    destruct (strip_trimmed p) as [Hh _]. apply Hh. by rewrite Ep.
  - intros (c & Hc & Hsp & Hd) E.
    pose proof (normalized_keeps _ _ Hc Hd) as Hn.
    apply is_delimiter_false in Hd as (Hd & _).
    destruct (split_covers _ _ _ Hn Hd) as (p & Hp & Hcp).
    pose proof (strip_keeps _ _ Hcp Hsp) as Hs.
    assert (strip p ∈ segment_text t) as He.
    { apply segment_text_elem. exists p. split; [done|]. split; [|done].
      intros E'. rewrite E' in Hs. by apply elem_of_nil in Hs. }
    rewrite E in He. by apply elem_of_nil in He.
Qed.

End SegmenterFacts.

Example segment_hello_world :
  segment_text (lit "Hello world. This is a test.")
  = [lit "Hello world"; lit "This is a test"].
Proof. reflexivity. Qed.

Example segment_unicode_space :
  segment_text (lit "Olá!　Tudo bem? ")
  = [lit "Olá"; lit "Tudo bem"].
Proof. reflexivity. Qed.

(** C1, as the specification states it, fails: the transcript "." contains
    a delimiter and is cut into no sentence at all. *)
Lemma C1_only_delimiters_counterexample :
  (exists c, In c (lit ".") /\ is_delimiter c = true)
  /\ ~ (segment_text (lit ".") <> []
        /\ Forall (fun e => strip e <> []) (segment_text (lit "."))).
Proof.
  split.
  - exists dot. split; [by left|done].
  - intros [Hne _]. by apply Hne.
Qed.

(** C1 (amended): for every transcript T, [segment_text T] is non-empty
    exactly when T contains a character that is neither white space nor
    one of '.', '!', '?' (a delimiter in T is neither needed nor enough),
    and every element of the result is non-empty after trimming. *)
Theorem C1_segment_text_nonempty (T : list N) :
  (segment_text T <> [] <->
   exists c, In c T /\ isspace c = false /\ is_delimiter c = false)
  /\ Forall (fun e => strip e <> []) (segment_text T).
Proof.
  split.
  - rewrite segment_text_nonempty_iff.
    split; intros (c & Hc & ?); exists c; by rewrite ?list_elem_of_In in *.
  - apply Forall_forall. intros e He.
    destruct (segment_text_pieces e T He) as (Hne & _ & Htr).
    by rewrite strip_fixed.
Qed.

(** C7: the transcript "helloworld", which has no delimiter, is cut into
    the single sentence "helloworld". *)
Theorem C7_segment_text_helloworld :
  segment_text (lit "helloworld") = [lit "helloworld"].
Proof. reflexivity. Qed.

(** C8, as the specification states it, fails: for the empty string the
    result is empty, and a string with white space at an end comes back
    trimmed. *)
Lemma C8_untrimmed_counterexample :
  (no_delimiter (lit "") = true
   /\ segment_text (lit "" ++ lit ".") <> [lit ""])
  /\ (no_delimiter (lit " a") = true
      /\ segment_text (lit " a" ++ lit ".") <> [lit " a"]).
Proof. split; (split; [reflexivity|discriminate]). Qed.

(** C8 (amended): for every string s without '.', '!' or '?',
    [segment_text (s + ".")] is the one-element list of s trimmed when
    that is non-empty and the empty list otherwise; it is [[s]] when s is
    non-empty and has no white space at either end. *)
Theorem C8_segment_text_terminated (s : list N) :
  no_delimiter s = true ->
  segment_text (s ++ lit ".") = (if truthy (strip s) then [strip s] else [])
  /\ (s <> [] -> trimmed s -> segment_text (s ++ lit ".") = [s]).
Proof.
  intros Hs.
  assert (segment_text (s ++ lit ".")
          = if truthy (strip s) then [strip s] else []) as E.
  { rewrite segment_text_unfold, normalized_app, (normalized_fixed _ Hs).
    change (normalized (lit ".")) with [dot].
    rewrite split_app_sep.
    - change (split dot []) with [@nil N].
      rewrite !filter_cons, filter_nil. change (strip []) with (@nil N).
      destruct (truthy (strip s)) eqn:Et; repeat case_decide; done.
    - intros Hin. rewrite no_delimiter_spec in Hs. by apply Hs in Hin. }
  split; [done|].
  intros Hne Htr. rewrite E, (strip_fixed _ Htr).
  by destruct s.
Qed.

Lemma C8_segment_text_terminated_witness :
  no_delimiter (lit "Hello world") = true
  /\ segment_text (lit "Hello world" ++ lit ".") = [lit "Hello world"].
Proof.
  split; [reflexivity|].
  destruct (C8_segment_text_terminated (lit "Hello world")) as [E _];
    [reflexivity|].
  exact E.
Defined.

(** C9: for every text t, no element of [segment_text t] contains '.',
    '!' or '?', no element has white space at either end, and
    [segment_text] maps every element e of its result to [[e]]. *)
Theorem C9_segment_text_idempotent (t e : list N) :
  In e (segment_text t) ->
  no_delimiter e = true /\ trimmed e /\ segment_text e = [e].
Proof.
  intros He%list_elem_of_In.
  destruct (segment_text_pieces e t He) as (Hne & Hd & Htr).
  split; [done|]. split; [done|].
  rewrite (segment_text_single _ Hd), (strip_fixed _ Htr).
  by destruct e.
Qed.

Lemma C9_segment_text_idempotent_witness :
  In (lit "This is a test") (segment_text (lit "Hello world. This is a test."))
  /\ segment_text (lit "This is a test") = [lit "This is a test"].
Proof.
  assert (In (lit "This is a test")
             (segment_text (lit "Hello world. This is a test."))) as Hin.
  { right. left. reflexivity. }
  split; [exact Hin|].
  exact (proj2 (proj2 (C9_segment_text_idempotent _ _ Hin))).
Defined.

(** ** The monad *)

Section MonadFacts.
Context {T : Type}.
Implicit Types (w : world T) (P : event T -> Prop).

Lemma bind_Return {A B} (c : M T A) (k : A -> M T B) w a w' :
  c w = (Return a, w') -> bind c k w = k a w'.
Proof. unfold bind. by intros ->. Qed.

Lemma bind_Raise {A B} (c : M T A) (k : A -> M T B) w e w' :
  c w = (Raise e, w') -> bind c k w = (Raise e, w').
Proof. unfold bind. by intros ->. Qed.

Lemma bind_Stopped {A B} (c : M T A) (k : A -> M T B) w w' :
  c w = (Stopped, w') -> bind c k w = (Stopped, w').
Proof. unfold bind. by intros ->. Qed.

Lemma bind_emit {B} (e : event T) (k : unit -> M T B) w :
  bind (emit e) k w = k tt {| fs := fs w; log := log w ++ [e] |}.
Proof. done. Qed.

Lemma bind_assoc {A B C} (c : M T A) (k : A -> M T B) (k' : B -> M T C) w :
  bind (bind c k) k' w = bind c (fun a => bind (k a) k') w.
Proof. unfold bind. by destruct (c w) as [[a|e|] w']. Qed.

Lemma appends_ret {A} P (a : A) : appends P (ret a).
Proof. intros w. exists []. by rewrite app_nil_r. Qed.

Lemma appends_raise {A} P e : appends P (@raise T A e).
Proof. intros w. exists []. by rewrite app_nil_r. Qed.

Lemma appends_st_stop {A} P : appends P (@st_stop T A).
Proof. intros w. exists []. by rewrite app_nil_r. Qed.

Lemma appends_emit P e : P e -> appends P (emit e).
Proof. intros He w. exists [e]. split; [done|]. by constructor. Qed.

Lemma appends_bind {A B} P (c : M T A) (k : A -> M T B) :
  appends P c -> (forall a, appends P (k a)) -> appends P (bind c k).
Proof.
  intros Hc Hk w. unfold bind.
  destruct (Hc w) as (l & El & Hl).
  destruct (c w) as [[a| |] w'] eqn:E; simpl in *; [|by exists l..].
  destruct (Hk a w') as (l' & El' & Hl').
  exists (l ++ l'). rewrite El', El, app_assoc. split; [done|].
  by apply Forall_app.
Qed.

Lemma appends_try_except {A} P (body : M T A) (handler : exn -> M T A) :
  appends P body -> (forall e, appends P (handler e)) ->
  appends P (try_except body handler).
Proof.
  intros Hc Hk w. unfold try_except.
  destruct (Hc w) as (l & El & Hl).
  destruct (body w) as [[a|e|] w'] eqn:E; simpl in *; [by exists l| |by exists l].
  destruct (Hk e w') as (l' & El' & Hl').
  exists (l ++ l'). rewrite El', El, app_assoc. split; [done|].
  by apply Forall_app.
Qed.

Lemma appends_lift {A} P (r : exn + A) : appends P (lift r).
Proof. destruct r; [apply appends_raise|apply appends_ret]. Qed.

Lemma appends_write_file P (svc : services T) p data :
  appends P (write_file svc p data).
Proof.
  unfold write_file. destruct (open_wb svc p); [apply appends_raise|].
  intros w. exists []. by rewrite app_nil_r.
Qed.

Lemma appends_read_file P p : appends P (@read_file T p).
Proof.
  intros w. exists []. unfold read_file.
  destruct (fs w !! p); by rewrite app_nil_r.
Qed.

Lemma appends_os_remove P p : appends P (@os_remove T p).
Proof.
  intros w. exists []. unfold os_remove.
  destruct (fs w !! p); [|destruct (is_dir (fs w) p)]; by rewrite app_nil_r.
Qed.

Lemma appends_os_listdir P (svc : services T) d : appends P (os_listdir svc d).
Proof. intros w. exists []. by rewrite app_nil_r. Qed.

Lemma appends_for_each {A} P (l : list A) (body : A -> M T unit) :
  (forall x, appends P (body x)) -> appends P (for_each l body).
Proof.
  intros Hb. induction l as [|x l IH]; simpl; [apply appends_ret|].
  apply appends_bind; [apply Hb|done].
Qed.

End MonadFacts.

(** Goals [appends P c] for a computation made of the primitives. *)
Ltac appends_step :=
  lazymatch goal with
  | |- appends _ (bind _ _) => apply appends_bind; [|intros ?]
  | |- appends _ (try_except _ _) => apply appends_try_except; [|intros ?]
  | |- appends _ (ret _) => apply appends_ret
  | |- appends _ (raise _) => apply appends_raise
  | |- appends _ st_stop => apply appends_st_stop
  | |- appends _ (lift _) => apply appends_lift
  | |- appends _ (emit _) => apply appends_emit; done
  | |- appends _ (st_error _) => apply appends_emit; done
  | |- appends _ (st_warning _) => apply appends_emit; done
  | |- appends _ (write_file _ _ _) => apply appends_write_file
  | |- appends _ (read_file _) => apply appends_read_file
  | |- appends _ (os_remove _) => apply appends_os_remove
  | |- appends _ (os_listdir _ _) => apply appends_os_listdir
  | |- appends _ (for_each _ _) => apply appends_for_each; intros ?
  | |- appends _ (match ?x with _ => _ end) => destruct x
  end.

Ltac appends_auto := repeat appends_step.

(** ** The pipeline functions *)

Section PipelineFacts.
Context {T : Type} `{Seconds T} (svc : services T).
Implicit Types (w : world T) (p : list N).

Lemma transcribe_audio_quiet audio_path :
  appends quiet (transcribe_audio svc audio_path).
Proof. unfold transcribe_audio. appends_auto. Qed.

Lemma generate_image_for_sentence_quiet sentence style_prompt index :
  appends quiet (generate_image_for_sentence svc sentence style_prompt index).
Proof. unfold generate_image_for_sentence. appends_auto. Qed.

(** The illustrator returns in every case: the path of the saved image,
    or None after reporting the exception of the [try] block. *)
Lemma generate_image_for_sentence_spec sentence style_prompt index w :
  generate_image_for_sentence svc sentence style_prompt index w =
    match attempt svc style_prompt index sentence with
    | inr image_data =>
        (Return (Some (image_path_of index)),
         {| fs := <[image_path_of index := image_data]> (fs w);
            log := log w
                   ++ [Call_generate_image_for_sentence sentence style_prompt index] |})
    | inl e =>
        (Return None,
         {| fs := fs w;
            log := (log w
                    ++ [Call_generate_image_for_sentence sentence style_prompt index])
                   ++ [StError (lit "Erro ao gerar imagem para: '" ++ sentence
                                ++ lit "'. Erro: " ++ exn_str e)] |})
    end.
Proof.
  unfold generate_image_for_sentence, attempt.
  rewrite bind_emit. unfold try_except, bind, lift, write_file, raise, ret.
  destruct (images_generate svc index _) as [e|image_url]; [done|].
  destruct (requests_get svc index image_url) as [e|image_data]; [done|].
  by destruct (open_wb svc (image_path_of index)) as [e|].
Qed.

Lemma image_path_of_eq index :
  image_path_of index = lit "temp/image_" ++ of_nat index ++ lit ".png".
Proof. reflexivity. Qed.

Lemma image_path_of_truthy index : truthy (image_path_of index) = true.
Proof. reflexivity. Qed.

Lemma image_path_of_last index : last (image_path_of index) = Some 103%N.
Proof.
  rewrite image_path_of_eq, !app_assoc.
  change (lit ".png") with ([46; 112; 110]%N ++ [103%N]).
  by rewrite app_assoc, last_snoc.
Qed.

Lemma successful_paths_cons style_prompt item items :
  successful_paths svc style_prompt (item :: items) =
    (if succeeds svc style_prompt item then [image_path_of item.1] else [])
    ++ successful_paths svc style_prompt items.
Proof.
  unfold successful_paths. rewrite filter_cons.
  destruct (succeeds svc style_prompt item); by case_decide.
Qed.

Lemma attempt_downloaded style_prompt index sentence data :
  attempt svc style_prompt index sentence = inr data -> downloaded svc data.
Proof.
  unfold attempt.
  destruct (images_generate svc index _) as [e|image_url]; [done|].
  destruct (requests_get svc index image_url) as [e|image_data] eqn:E; [done|].
  destruct (open_wb svc (image_path_of index)); [done|].
  intros [= <-]. by exists index, image_url.
Qed.

(** The loop over the sentences returns the paths of the sentences that
    succeed, in order; it calls the illustrator for every sentence and
    never the assembler, and it writes nothing but those images. *)
Lemma for_sentences_spec style_prompt total items image_paths w :
  exists l fs',
    for_sentences svc style_prompt total items image_paths w =
      (Return (image_paths ++ successful_paths svc style_prompt items),
       {| fs := fs'; log := log w ++ l |})
    /\ illustrator_calls l = items
    /\ no_assembler_call l
    /\ (forall p, p ∉ successful_paths svc style_prompt items ->
         fs' !! p = fs w !! p)
    /\ (forall p, p ∈ successful_paths svc style_prompt items ->
         exists data, fs' !! p = Some data /\ downloaded svc data).
Proof.
  revert image_paths w.
  induction items as [|[i sentence] rest IH]; intros image_paths w.
  - exists [], (fs w). simpl. rewrite !app_nil_r. destruct w.
    split; [done|]. split; [done|]. split; [by constructor|].
    split; [done|]. by intros p ?%elem_of_nil.
  - cbn [for_sentences]. rewrite bind_emit.
    rewrite successful_paths_cons. unfold succeeds. cbn [fst snd].
    match goal with
    | |- context [bind (generate_image_for_sentence _ _ _ _) _ ?w1] =>
        pose proof (generate_image_for_sentence_spec sentence style_prompt i w1) as Eg
    end.
    destruct (attempt svc style_prompt i sentence) as [e|data] eqn:Ea;
      rewrite (bind_Return _ _ _ _ _ Eg); clear Eg.
    + match goal with
      | |- context [for_sentences _ _ _ rest ?acc ?w1] =>
          destruct (IH acc w1) as (l & fs' & E & Hc & Hq & Hf & Hd)
      end.
      cbn [fs log] in *. rewrite E.
      eexists (_ :: _ :: _ :: l), fs'.
      split; [by rewrite <- !app_assoc|].
      split; [by rewrite <- Hc|].
      split; [by repeat constructor|].
      done.
    + rewrite image_path_of_truthy.
      match goal with
      | |- context [for_sentences _ _ _ rest ?acc ?w1] =>
          destruct (IH acc w1) as (l & fs' & E & Hc & Hq & Hf & Hd)
      end.
      cbn [fs log] in *. rewrite E.
      eexists (_ :: _ :: l), fs'.
      split; [by rewrite <- !app_assoc|].
      split; [by rewrite <- Hc|].
      split; [by repeat constructor|].
      split.
      * intros p Hp. apply not_elem_of_app in Hp as [Hp1 Hp2].
        rewrite (Hf p Hp2). apply lookup_insert_ne.
        intros <-. apply Hp1. left.
      * intros p Hp.
        destruct (decide (p ∈ successful_paths svc style_prompt rest)) as [Hin|Hin];
          [by apply Hd|].
        apply elem_of_app in Hp as [->%list_elem_of_singleton|Hp]; [|done].
        exists data. rewrite (Hf _ Hin), lookup_insert_eq.
        split; [done|]. by eapply attempt_downloaded.
Qed.

(** *** The assembler *)

Lemma for_image_paths_spec image_paths d clips w :
  (forall p, p ∈ image_paths ->
     exists data, fs w !! p = Some data /\ image_load svc data = None) ->
  for_image_paths svc image_paths d clips w =
    (Return (clips ++ map (clip_for d) image_paths), w).
Proof.
  revert clips. induction image_paths as [|p rest IH]; intros clips Hl.
  - simpl. by rewrite app_nil_r.
  - destruct (Hl p) as (data & Ef & El); [left|].
    cbn [for_image_paths].
    assert (ImageClip svc p w
            = (Return {| clip_image := p; clip_duration := None;
                         clip_effects := [] |}, w)) as Ei.
    { unfold ImageClip, bind, read_file. by rewrite Ef, El. }
    rewrite (bind_Return _ _ _ _ _ Ei), IH.
    + by rewrite <- app_assoc.
    + intros q Hq. apply Hl. by right.
Qed.

Lemma mapM_clip_duration d (image_paths : list (list N)) :
  mapM clip_duration (map (clip_for d) image_paths)
  = Some (map (fun _ => d) image_paths).
Proof.
  induction image_paths as [|p rest IH]; [done|].
  cbn [map mapM]. by rewrite IH.
Qed.

(** With a readable audio track and loadable images, the assembler hands
    [final_clip_for] to the encoder. *)
Lemma create_video_from_images_spec image_paths audio_path output_path w adata D :
  image_paths <> [] ->
  fs w !! audio_path = Some adata ->
  audio_file_duration svc adata = inr D ->
  (forall p, p ∈ image_paths ->
     exists data, fs w !! p = Some data /\ image_load svc data = None) ->
  let final := final_clip_for image_paths audio_path D in
  create_video_from_images svc image_paths audio_path output_path w =
    ((encoded svc final output_path (fs w)).1,
     {| fs := (encoded svc final output_path (fs w)).2;
        log := log w
               ++ [Call_create_video_from_images image_paths audio_path output_path;
                   WriteVideofile final output_path (lit "libx264") 24] |}).
Proof.
  intros Hne Ea Ed Hl final.
  unfold create_video_from_images. rewrite bind_emit.
  match goal with |- context [bind (AudioFileClip _ _) _ ?w1] => set (w1' := w1) end.
  assert (AudioFileClip svc audio_path w1'
          = (Return {| audio_source := audio_path; audio_duration := D |}, w1')) as E1.
  { unfold AudioFileClip, bind, read_file. cbn [fs w1']. by rewrite Ea, Ed. }
  rewrite (bind_Return _ _ _ _ _ E1). cbn [audio_duration].
  assert (true_div D (length image_paths) w1'
          = (Return (sec_div D (length image_paths)), w1')) as E2.
  { destruct image_paths; [done|]. done. }
  rewrite (bind_Return _ _ _ _ _ E2).
  rewrite (bind_Return _ _ _ _ _
             (for_image_paths_spec image_paths _ [] w1' Hl)).
  rewrite app_nil_l.
  assert (concatenate_videoclips (map (clip_for (sec_div D (length image_paths))) image_paths) w1'
          = (Return {| video_clips := video_clips final;
                       video_duration := video_duration final;
                       video_audio := None |}, w1')) as E3.
  { unfold concatenate_videoclips. by rewrite mapM_clip_duration. }
  rewrite (bind_Return _ _ _ _ _ E3).
  unfold set_audio. cbn [video_clips video_duration video_audio].
  change {| video_clips := video_clips final;
            video_duration := video_duration final;
            video_audio := Some {| audio_source := audio_path; audio_duration := D |} |}
    with final.
  unfold write_videofile, encoded. rewrite bind_assoc, bind_emit.
  unfold bind, ret. subst w1'. cbn [fs log video_audio final final_clip_for].
  destruct (encode_video svc final (lit "libx264") 24) as [[e behind]|data];
    by rewrite <- app_assoc.
Qed.

(** Without images the assembler fails on the division, before any clip
    is built or encoded. *)
Lemma create_video_from_images_empty audio_path output_path w adata D :
  fs w !! audio_path = Some adata ->
  audio_file_duration svc adata = inr D ->
  create_video_from_images svc [] audio_path output_path w =
    (Raise ZeroDivisionError,
     {| fs := fs w;
        log := log w ++ [Call_create_video_from_images [] audio_path output_path] |}).
Proof.
  intros Ea Ed. unfold create_video_from_images. rewrite bind_emit.
  unfold bind, AudioFileClip, bind, read_file. cbn [fs]. by rewrite Ea, Ed.
Qed.

Lemma appends_write_videofile (P : event T -> Prop) v output_path codec fps :
  P (WriteVideofile v output_path codec fps) ->
  appends P (write_videofile svc v output_path codec fps).
Proof.
  intros HP w. exists [WriteVideofile v output_path codec fps].
  split; [|by constructor].
  unfold write_videofile. rewrite bind_emit.
  by destruct (encode_video svc v codec fps) as [[e behind]|data].
Qed.

Lemma create_video_from_images_tail_quiet image_paths audio_path output_path :
  appends quiet
    (let* audio_clip := AudioFileClip svc audio_path in
     let total_duration := audio_duration audio_clip in
     let* duration_per_image := true_div total_duration (length image_paths) in
     let* clips := for_image_paths svc image_paths duration_per_image [] in
     let* final_clip := concatenate_videoclips clips in
     let final_clip := set_audio final_clip audio_clip in
     let* _ := write_videofile svc final_clip output_path (lit "libx264") 24 in
     ret output_path).
Proof.
  assert (forall l d clips, appends quiet (for_image_paths svc l d clips)) as Hloop.
  { induction l as [|p l IH]; intros d clips; cbn [for_image_paths].
    - apply appends_ret.
    - apply appends_bind; [unfold ImageClip; appends_auto|]. intros c. apply IH. }
  apply appends_bind; [unfold AudioFileClip; appends_auto|]. intros a.
  apply appends_bind; [unfold true_div; appends_auto|]. intros d.
  apply appends_bind; [apply Hloop|]. intros clips.
  apply appends_bind; [unfold concatenate_videoclips; appends_auto|]. intros v.
  apply appends_bind; [by apply appends_write_videofile|]. intros _.
  apply appends_ret.
Qed.

End PipelineFacts.

(** ** The scratch directory *)

Section ScratchFacts.
Context {T : Type} (svc : services T).
Implicit Types (w : world T) (p k n d : list N) (m : gmap (list N) (list Byte.byte)).

Lemma strip_prefix_Some d k n : strip_prefix d k = Some n <-> k = d ++ n.
Proof.
  revert k. induction d as [|a d IH]; intros k; simpl.
  - split; [by intros [= ->]|by intros ->].
  - destruct k as [|b k]; [done|].
    destruct (char_eqb a b) eqn:E.
    + apply char_eqb_eq in E as ->. rewrite IH. split; [by intros ->|by intros [= ->]].
    + apply char_eqb_neq in E. split; [done|]. intros [= -> _]. done.
Qed.

Lemma is_file_name_spec n :
  is_file_name n = true <->
  n <> [] /\ (slash ∉ n) /\ n <> [dot] /\ n <> [dot; dot].
Proof.
  unfold is_file_name, is_special.
  rewrite !andb_true_iff, negb_true_iff, orb_false_iff, !bool_decide_eq_false.
  rewrite truthy_true, forallb_forall. split.
  - intros [[Hn Hs] [Hd Hdd]]. repeat split; try done.
    intros Hin%list_elem_of_In. apply Hs in Hin.
    apply negb_true_iff, char_eqb_neq in Hin. done.
  - intros (Hn & Hs & Hd & Hdd). repeat split; try done.
    intros c Hc%list_elem_of_In. apply negb_true_iff, char_eqb_neq.
    by intros ->.
Qed.

Lemma entry_name_Some d k n :
  entry_name d k = Some n <-> k = d ++ slash :: n /\ is_file_name n = true.
Proof.
  unfold entry_name.
  destruct (strip_prefix (d ++ [slash]) k) as [r|] eqn:E.
  - apply strip_prefix_Some in E. rewrite <- app_assoc in E. simpl in E.
    destruct (is_file_name r) eqn:Er.
    + split; [by intros [= <-]|]. intros [-> _].
      by apply app_inv_head in E as [= ->].
    + split; [done|]. intros [-> Hn].
      apply app_inv_head in E as [= ->]. congruence.
  - split; [done|]. intros [-> _].
    assert (strip_prefix (d ++ [slash]) (d ++ slash :: n) = Some n) as E'.
    { apply strip_prefix_Some. by rewrite <- app_assoc. }
    congruence.
Qed.

Lemma path_join_temp n :
  head n <> Some slash -> path_join temp n = temp ++ slash :: n.
Proof.
  intros Hn. unfold path_join.
  assert (match n with c :: _ => char_eqb c slash | [] => false end = false) as ->.
  { destruct n as [|c n]; [done|]. apply char_eqb_neq. naive_solver. }
  done.
Qed.

Lemma is_file_name_head n : is_file_name n = true -> head n <> Some slash.
Proof.
  intros (Hn & Hs & _)%is_file_name_spec. destruct n as [|c n]; [done|].
  intros [= ->]. apply Hs. left.
Qed.

Lemma path_join_temp_name n :
  is_file_name n = true -> path_join temp n = temp ++ slash :: n.
Proof. intros Hn. by apply path_join_temp, is_file_name_head. Qed.

Lemma in_temp_true p :
  in_temp p = true <-> exists n, is_file_name n = true /\ p = path_join temp n.
Proof.
  unfold in_temp. split.
  - destruct (entry_name temp p) as [n|] eqn:E; [|done]. intros _.
    apply entry_name_Some in E as [-> Hn]. exists n. split; [done|].
    by rewrite path_join_temp_name.
  - intros (n & Hn & ->). rewrite path_join_temp_name by done.
    assert (entry_name temp (temp ++ slash :: n) = Some n) as ->; [|done].
    by apply entry_name_Some.
Qed.

(** *** The entries of a directory *)

Lemma first_component_cases (r : list N) :
  ((slash ∉ r) /\ first_component r = r)
  \/ (exists t, r = first_component r ++ slash :: t).
Proof.
  induction r as [|c r IH]; [left; split; [apply not_elem_of_nil|done]|].
  cbn [first_component]. destruct (char_eqb c slash) eqn:E.
  - apply char_eqb_eq in E as ->. right. by exists r.
  - apply char_eqb_neq in E. destruct IH as [[Hs Hr]|(t & Ht)].
    + left. rewrite Hr. split; [|done]. by apply not_elem_of_cons.
    + right. exists t. by rewrite Ht at 1.
Qed.

Lemma first_component_name n : slash ∉ n -> first_component n = n.
Proof.
  intros Hn. destruct (first_component_cases n) as [[_ E]|(t & E)]; [done|].
  destruct Hn. rewrite E. apply elem_of_app. right. left.
Qed.

Lemma is_dir_true m p :
  is_dir m p = true <-> exists k, is_Some (m !! k) /\ through p k.
Proof.
  unfold is_dir. rewrite existsb_exists. split.
  - intros (k & Hk%list_elem_of_In & Hp%bool_decide_eq_true).
    apply list_elem_of_fmap in Hk as ([k' data] & -> & Hk%elem_of_map_to_list).
    exists k'. split; [by exists data|].
    destruct Hp as (t & Ht%strip_prefix_Some). exists t.
    by rewrite <- app_assoc in Ht.
  - intros (k & [data Hk] & t & ->). exists (p ++ slash :: t). split.
    + apply list_elem_of_In, list_elem_of_fmap. exists (p ++ slash :: t, data).
      split; [done|]. by apply elem_of_map_to_list.
    + apply bool_decide_eq_true. exists t. apply strip_prefix_Some.
      by rewrite <- app_assoc.
Qed.

Lemma entry_of_Some k n :
  entry_of temp k = Some n ->
  is_file_name n = true
  /\ (k = path_join temp n \/ through (path_join temp n) k).
Proof.
  unfold entry_of.
  destruct (strip_prefix (temp ++ [slash]) k) as [r|] eqn:E; [|done].
  apply strip_prefix_Some in E. rewrite <- app_assoc in E. simpl in E.
  destruct (is_file_name (first_component r)) eqn:En; [|done].
  intros [= <-]. split; [done|]. rewrite path_join_temp_name by done.
  destruct (first_component_cases r) as [[_ Er]|(t & Er)].
  - left. by rewrite Er.
  - right. exists t. rewrite E, Er at 1. by rewrite <- app_assoc.
Qed.

Lemma entry_of_file n :
  is_file_name n = true -> entry_of temp (path_join temp n) = Some n.
Proof.
  intros Hn. rewrite path_join_temp_name by done. unfold entry_of.
  assert (strip_prefix (temp ++ [slash]) (temp ++ slash :: n) = Some n) as ->.
  { apply strip_prefix_Some. by rewrite <- app_assoc. }
  apply is_file_name_spec in Hn as Hn'. destruct Hn' as (_ & Hs & _).
  by rewrite (first_component_name _ Hs), Hn.
Qed.

Lemma path_join_temp_inj n n' :
  is_file_name n = true -> is_file_name n' = true ->
  path_join temp n = path_join temp n' -> n = n'.
Proof.
  intros Hn Hn'. rewrite !path_join_temp_name by done.
  by intros [= ->]%app_inv_head.
Qed.

Lemma through_not_file n n' k :
  is_file_name n = true -> through (path_join temp n') k -> k <> path_join temp n.
Proof.
  intros Hn (t & ->) E. rewrite (path_join_temp_name n) in E by done.
  apply is_file_name_spec in Hn as (_ & Hs & _).
  destruct (decide (head n' = Some slash)) as [Hh|Hh].
  - destruct n' as [|c n']; [done|]. injection Hh as ->.
    unfold path_join in E. cbn in E. done.
  - rewrite (path_join_temp _ Hh), <- app_assoc in E. cbn in E.
    apply app_inv_head in E as [= E']. apply Hs. rewrite <- E'.
    apply elem_of_app. right. left.
Qed.

(** The names that [os.listdir("temp")] gives: each once, each the name
    of a file or of a sub-directory of "temp", and all of them. *)
Lemma listdir_temp w :
  exists names,
    os_listdir svc temp w = (Return names, w)
    /\ NoDup names
    /\ (forall n, n ∈ names ->
          is_file_name n = true
          /\ (is_Some (fs w !! path_join temp n)
              \/ is_dir (fs w) (path_join temp n) = true))
    /\ (forall n, is_file_name n = true ->
          is_Some (fs w !! path_join temp n) -> n ∈ names).
Proof.
  eexists. split; [reflexivity|].
  set (entries := omap (entry_of temp) (map fst (map_to_list (fs w)))).
  assert (forall n, n ∈ entries <->
            exists k, is_Some (fs w !! k) /\ entry_of temp k = Some n) as Hent.
  { intros n. unfold entries. rewrite list_elem_of_omap. split.
    - intros (k & Hk & E). exists k. split; [|done].
      apply list_elem_of_fmap in Hk as ([k' data] & -> & Hk%elem_of_map_to_list).
      by exists data.
    - intros (k & [data Hk] & E). exists k. split; [|done].
      apply list_elem_of_fmap. exists (k, data). split; [done|].
      by apply elem_of_map_to_list. }
  split; [|split].
  - rewrite merge_sort_Permutation. apply NoDup_remove_dups.
  - intros n. rewrite merge_sort_Permutation, elem_of_remove_dups, Hent.
    intros (k & Hk & [Hn [->|Hthrough]]%entry_of_Some); (split; [done|]).
    + by left.
    + right. apply is_dir_true. by exists k.
  - intros n Hn Hf. rewrite merge_sort_Permutation, elem_of_remove_dups, Hent.
    exists (path_join temp n). split; [done|]. by apply entry_of_file.
Qed.

(** Removing the entries of "temp" one after the other: the files go,
    and the first sub-directory met stops the loop. *)
Lemma remove_each (names : list (list N)) m lg :
  NoDup names ->
  (forall n, n ∈ names ->
     is_file_name n = true
     /\ (is_Some (m !! path_join temp n) \/ is_dir m (path_join temp n) = true)) ->
  exists r m',
    for_each names (fun file => os_remove (path_join temp file)) {| fs := m; log := lg |}
    = (r, {| fs := m'; log := lg |} : world T)
    /\ (forall p, m' !! p = m !! p
                  \/ (m' !! p = None /\ exists n, n ∈ names /\ p = path_join temp n))
    /\ ((r = Return tt /\ forall n, n ∈ names -> m' !! path_join temp n = None)
        \/ exists n, n ∈ names
                     /\ r = Raise (IsADirectoryError (path_join temp n))
                     /\ is_dir m (path_join temp n) = true).
Proof.
  revert m. induction names as [|x names IH]; intros m Hnd Hin.
  - exists (Return tt), m. split; [done|]. split; [by left|].
    left. split; [done|]. by intros n ?%elem_of_nil.
  - apply NoDup_cons in Hnd as [Hx Hnd].
    destruct (Hin x) as [Hxn Hxf]; [left|].
    cbn [for_each]. unfold bind at 1. unfold os_remove at 1. cbn [fs log].
    destruct (m !! path_join temp x) as [data|] eqn:Ex.
    + destruct (IH (delete (path_join temp x) m) Hnd) as (r & m' & E & Hframe & Hend).
      { intros n Hn. destruct (Hin n) as [Hnn Hnf]; [by right|].
        split; [done|]. destruct Hnf as [Hf|Hd].
        - left. rewrite lookup_delete_ne; [done|].
          intros E'%path_join_temp_inj; [|done..]. by subst.
        - right. apply is_dir_true in Hd as (k & Hk & Hthrough).
          apply is_dir_true. exists k. split; [|done].
          rewrite lookup_delete_ne; [done|].
          apply not_eq_sym. by eapply through_not_file. }
      exists r, m'. split; [done|]. split.
      * intros p. destruct (Hframe p) as [Ep|(Ep & n & Hn & ->)].
        -- destruct (decide (p = path_join temp x)) as [->|Hne].
           ++ right. rewrite Ep, lookup_delete_eq. split; [done|].
              exists x. split; [left|done].
           ++ left. by rewrite Ep, lookup_delete_ne.
        -- right. split; [done|]. exists n. split; [by right|done].
      * destruct Hend as [[-> Hgone]|(n & Hn & -> & Hd)].
        -- left. split; [done|]. intros n [->|Hn]%elem_of_cons; [|by apply Hgone].
           destruct (Hframe (path_join temp x)) as [Ep|[Ep _]]; [|done].
           by rewrite Ep, lookup_delete_eq.
        -- right. exists n. split; [by right|]. split; [done|].
           apply is_dir_true in Hd as (k & Hk & Hthrough).
           apply is_dir_true. exists k. split; [|done].
           destruct (decide (k = path_join temp x)) as [->|Hne].
           ++ by rewrite lookup_delete_eq in Hk; destruct Hk.
           ++ by rewrite lookup_delete_ne in Hk.
    + destruct Hxf as [[? ?]|Hd]; [done|]. rewrite Hd.
      exists (Raise (IsADirectoryError (path_join temp x))), m.
      split; [done|]. split; [by left|].
      right. exists x. split; [left|done].
Qed.

(** The cleanup removes files directly inside "temp" and nothing else; it
    returns with none left, or it raises on a sub-directory of "temp". *)
Lemma cleanup_spec w :
  exists r fs',
    cleanup svc w = (r, {| fs := fs'; log := log w |})
    /\ (forall p, fs' !! p = fs w !! p \/ (fs' !! p = None /\ in_temp p = true))
    /\ ((r = Return tt /\ forall p, in_temp p = true -> fs' !! p = None)
        \/ exists n, is_file_name n = true
                     /\ r = Raise (IsADirectoryError (path_join temp n))
                     /\ is_dir (fs w) (path_join temp n) = true).
Proof.
  destruct (listdir_temp w) as (names & El & Hnd & Hnames & Hall).
  destruct (remove_each names (fs w) (log w) Hnd Hnames)
    as (r & fs' & E & Hframe & Hend).
  exists r, fs'. split; [|split].
  - unfold cleanup. rewrite (bind_Return _ _ _ _ _ El). by destruct w.
  - intros p. destruct (Hframe p) as [Ep|(Ep & n & Hn & ->)]; [by left|].
    right. split; [done|]. apply in_temp_true. exists n. split; [|done].
    by apply Hnames.
  - destruct Hend as [[-> Hgone]|(n & Hn & -> & Hd)].
    + left. split; [done|]. intros p (n & Hn & ->)%in_temp_true.
      destruct (fs w !! path_join temp n) as [data|] eqn:Ef.
      * apply Hgone, Hall; [done|]. by rewrite Ef.
      * destruct (Hframe (path_join temp n)) as [Ep|[Ep _]]; [|done].
        by rewrite Ep.
    + right. exists n. split; [by apply Hnames|done].
Qed.

Lemma flat_temp_true m :
  flat_temp m = true <->
  forall k r, is_Some (m !! k) -> strip_prefix (temp ++ [slash]) k = Some r ->
              is_file_name r = true.
Proof.
  unfold flat_temp. rewrite forallb_forall. split.
  - intros Hflat k r [data Hk] Er.
    specialize (Hflat k). rewrite Er in Hflat. apply Hflat.
    apply list_elem_of_In, list_elem_of_fmap. exists (k, data).
    split; [done|]. by apply elem_of_map_to_list.
  - intros Hflat k Hk%list_elem_of_In.
    apply list_elem_of_fmap in Hk as ([k' data] & -> & Hk%elem_of_map_to_list).
    cbn [fst]. destruct (strip_prefix (temp ++ [slash]) k') as [r|] eqn:Er; [|done].
    apply (Hflat k'); [by exists data|done].
Qed.

Lemma flat_temp_no_dir m n :
  flat_temp m = true -> is_dir m (path_join temp n) = true -> is_file_name n = false.
Proof.
  intros Hflat (k & Hk & t & ->)%is_dir_true.
  destruct (is_file_name n) eqn:Hn; [|done]. exfalso.
  rewrite path_join_temp_name in Hk by done.
  assert (is_file_name (n ++ slash :: t) = true) as Hbad.
  { apply (proj1 (flat_temp_true m) Hflat _ _ Hk).
    apply strip_prefix_Some. by rewrite <- !app_assoc. }
  apply is_file_name_spec in Hbad as (_ & Hs & _). apply Hs.
  apply elem_of_app. right. left.
Qed.

(** With no sub-directory in "temp", the cleanup returns. *)
Lemma cleanup_flat w :
  flat_temp (fs w) = true ->
  exists fs',
    cleanup svc w = (Return tt, {| fs := fs'; log := log w |})
    /\ (forall p, fs' !! p = fs w !! p \/ (fs' !! p = None /\ in_temp p = true))
    /\ (forall p, in_temp p = true -> fs' !! p = None).
Proof.
  intros Hflat.
  destruct (cleanup_spec w) as (r & fs' & E & Hframe & [[-> Hgone]|(n & Hn & _ & Hd)]).
  - by exists fs'.
  - apply (flat_temp_no_dir _ _ Hflat) in Hd. congruence.
Qed.

(** Files added directly inside "temp", or as "final_animation.mp4",
    make no sub-directory of "temp". *)
Lemma path_join_temp_first n :
  head (path_join temp n) = Some slash \/ head (path_join temp n) = Some 116%N.
Proof.
  unfold path_join. destruct n as [|c n]; [by right|].
  destruct (char_eqb c slash) eqn:E; [|by right].
  apply char_eqb_eq in E as ->. by left.
Qed.

Lemma path_join_temp_not_final n : path_join temp n <> final_animation.
Proof.
  intros E. apply (f_equal head) in E.
  destruct (path_join_temp_first n) as [Hh|Hh]; rewrite Hh in E; discriminate E.
Qed.

Lemma path_join_temp_not_audiofile n :
  path_join temp n <> temp_audiofile final_animation.
Proof.
  intros E. apply (f_equal head) in E.
  destruct (path_join_temp_first n) as [Hh|Hh]; rewrite Hh in E; discriminate E.
Qed.




Lemma flat_temp_grown m m' :
  (forall k, is_Some (m' !! k) ->
     is_Some (m !! k) \/ in_temp k = true \/ k = final_animation) ->
  flat_temp m = true -> flat_temp m' = true.
Proof.
  intros Hkeys Hflat. apply flat_temp_true. intros k r Hk Er.
  destruct (Hkeys k Hk) as [Hm|[Hin| ->]].
  - by apply (proj1 (flat_temp_true m) Hflat k r).
  - unfold in_temp, entry_name in Hin. rewrite Er in Hin.
    by destruct (is_file_name r).
  - discriminate Er.
Qed.

Lemma cleanup_quiet : appends quiet (cleanup svc).
Proof. unfold cleanup. appends_auto. Qed.


End ScratchFacts.

(** ** The button handler *)

Section HandlerFacts.
Context {T : Type} `{Seconds T} (svc : services T).
Implicit Types (w : world T) (p : list N).

Lemma nonempty_branch {A B} (l : list A) (a b : B) :
  l <> [] -> match l with [] => a | _ :: _ => b end = b.
Proof. by destruct l. Qed.

Lemma appends_run {A} (P : event T -> Prop) (c : M T A) w :
  appends P c ->
  exists r fs' l, c w = (r, {| fs := fs'; log := log w ++ l |}) /\ Forall P l.
Proof.
  intros Hc. destruct (Hc w) as (l & El & Hl).
  destruct (c w) as [r [fs' lg]]. simpl in El. subst lg. by exists r, fs', l.
Qed.

Lemma write_file_ok p data w :
  open_wb svc p = None ->
  write_file svc p data w
  = (Return tt, {| fs := <[p := data]> (fs w); log := log w |}).
Proof. unfold write_file. by intros ->. Qed.

Lemma transcribe_audio_spec audio_path data text w :
  fs w !! audio_path = Some data ->
  transcriptions_create svc data = inr text ->
  transcribe_audio svc audio_path w
  = (Return text,
     {| fs := fs w; log := log w ++ [Call_transcribe_audio audio_path] |}).
Proof.
  intros Ef Et. unfold transcribe_audio. rewrite bind_emit.
  unfold bind, read_file. cbn [fs]. by rewrite Ef, Et.
Qed.

Lemma successful_paths_image style_prompt items p :
  p ∈ successful_paths svc style_prompt items -> exists i, p = image_path_of i.
Proof.
  unfold successful_paths. intros (item & -> & _)%list_elem_of_fmap.
  by exists item.1.
Qed.

Lemma decimal_no_slash (d : Decimal.uint) :
  forallb (fun c => negb (char_eqb c slash)) (lit (NilEmpty.string_of_uint d)) = true.
Proof. induction d; [done|exact IHd..]. Qed.

Lemma in_temp_image_path index : in_temp (image_path_of index) = true.
Proof.
  apply in_temp_true. exists (lit "image_" ++ of_nat index ++ lit ".png").
  split; [|done].
  unfold is_file_name. rewrite !andb_true_iff. split; [split; [done|]|done].
  rewrite !forallb_app. rewrite !andb_true_iff.
  split; [done|]. split; [apply decimal_no_slash|done].
Qed.

Lemma in_temp_audio_path n :
  is_file_name n = true -> in_temp (path_join temp n) = true.
Proof. intros Hn. apply in_temp_true. by exists n. Qed.

(** The handler up to and including the transcription. *)
Lemma handler_reaches_segmentation u f text w :
  uploaded_file u = Some f ->
  open_wb svc (path_join temp (name f)) = None ->
  transcriptions_create svc (getbuffer f) = inr text ->
  exists l (rest : M T unit),
    button_handler svc u w
    = rest {| fs := <[path_join temp (name f) := getbuffer f]> (fs w);
              log := log w ++ l |}
    /\ no_assembler_call l /\ illustrator_calls l = []
    /\ rest =
       (let sentences := segment_text text in
        let* _ :=
          match sentences with
          | [] =>
              let* _ := st_error (lit "Não foi possível extrair sentenças do áudio. Tente um áudio mais claro.") in
              st_stop
          | _ :: _ => ret tt
          end in
        let total_sentences := length sentences in
        let* image_paths :=
          for_sentences svc (style_options (selected_style u)) total_sentences
            (enumerate sentences) [] in
        let* _ :=
          match image_paths with
          | [] =>
              let* _ := st_error (lit "Nenhuma imagem foi gerada. Verifique os logs de erro.") in
              st_stop
          | _ :: _ => ret tt
          end in
        let* _ := emit (StProgress 95 (lit "Passo 3/3: Montando o vídeo final...")) in
        let* video_path :=
          create_video_from_images svc image_paths (path_join temp (name f))
            final_animation in
        let* _ := emit (StProgress 100 (lit "Processo concluído!")) in
        let* _ := emit (TimeSleep 1) in
        let* _ := emit StProgressEmpty in
        let* _ := emit (StSuccess (lit "Animação criada com sucesso!")) in
        let* _ := emit (StHeader (lit "Assista sua Animação!")) in
        let* video_bytes := read_file video_path in
        let* _ := emit (StVideo video_bytes) in
        let* _ := emit (StDownloadButton (lit "Baixar Vídeo 📥") video_bytes
                          (lit "animacao_gerada.mp4") (lit "video/mp4")) in
        cleanup svc).
Proof.
  intros Hu Ho Ht. unfold button_handler. rewrite Hu.
  rewrite (bind_Return _ _ _ _ _ (write_file_ok _ _ w Ho)).
  rewrite !bind_emit.
  erewrite bind_Return;
    [|apply (transcribe_audio_spec _ (getbuffer f) text); [apply lookup_insert_eq|done]].
  rewrite bind_emit. cbn [fs log].
  eexists [_; _; _; _], _. rewrite <- !app_assoc.
  split; [reflexivity|]. split; [by repeat constructor|]. split; reflexivity.
Qed.

(** The handler up to the cleanup, in a run that goes through: what it
    has shown and the files it has made. *)
Lemma handler_goes_through u f text D video w :
  uploaded_file u = Some f ->
  (forall i, image_path_of i <> path_join temp (name f)) ->
  open_wb svc (path_join temp (name f)) = None ->
  transcriptions_create svc (getbuffer f) = inr text ->
  let audio_path := path_join temp (name f) in
  let image_paths :=
    successful_paths svc (style_options (selected_style u))
      (enumerate (segment_text text)) in
  image_paths <> [] ->
  audio_file_duration svc (getbuffer f) = inr D ->
  (forall data, downloaded svc data -> image_load svc data = None) ->
  encode_video svc (final_clip_for image_paths audio_path D) (lit "libx264") 24
  = inr video ->
  exists l fs5,
    button_handler svc u w
    = cleanup svc
        {| fs := fs5;
           log := log w ++ l
                  ++ [StVideo video;
                      StDownloadButton (lit "Baixar Vídeo 📥") video
                        (lit "animacao_gerada.mp4") (lit "video/mp4")] |}
    /\ fs5 !! final_animation = Some video
    /\ fs5 !! temp_audiofile final_animation = None
    /\ fs5 !! audio_path = Some (getbuffer f)
    /\ (forall p, p ∈ image_paths -> is_Some (fs5 !! p))
    /\ (forall p, is_Some (fs5 !! p) ->
          is_Some (fs w !! p) \/ p = audio_path \/ p ∈ image_paths
          \/ p = final_animation)
    /\ (forall p, p <> final_animation -> p <> temp_audiofile final_animation ->
          p <> audio_path -> p ∉ image_paths -> fs5 !! p = fs w !! p).
Proof.
  intros Hu Ha Ho Ht audio_path image_paths Hp Hd Hl He.
  destruct (handler_reaches_segmentation u f text w Hu Ho Ht)
    as (l & rest & -> & _ & _ & ->).
  cbv zeta. fold audio_path.
  set (style_prompt := style_options (selected_style u)) in *.
  set (items := enumerate (segment_text text)) in *.
  assert (segment_text text <> []) as Hs.
  { intros E0. apply Hp. unfold image_paths, items. by rewrite E0. }
  rewrite (nonempty_branch _ _ _ Hs).
  unfold ret at 1. unfold bind at 1.
  match goal with
  | |- context [bind (for_sentences _ _ ?n _ _) _ ?w1] =>
      destruct (for_sentences_spec svc style_prompt n items [] w1)
        as (l1 & fs1 & E & _ & _ & Hf & Hi)
  end.
  rewrite (bind_Return _ _ _ _ _ E). cbn [app fs log] in *.
  fold image_paths in Hf, Hi |- *.
  rewrite (nonempty_branch _ _ _ Hp).
  unfold ret at 1. unfold bind at 1. rewrite bind_emit.
  assert (audio_path ∉ image_paths) as Hout.
  { intros (i & E0)%successful_paths_image. by apply (Ha i). }
  match goal with
  | |- context [bind (create_video_from_images _ _ _ _) _ ?w3] =>
      pose proof (create_video_from_images_spec svc image_paths audio_path
                    final_animation w3 (getbuffer f) D Hp) as Ev
  end.
  cbn [fs log] in Ev. cbv zeta in Ev.
  unfold encoded in Ev. rewrite He in Ev. cbn [fst snd] in Ev.
  assert (fs1 !! audio_path = Some (getbuffer f)) as Hfa
    by by rewrite (Hf _ Hout), lookup_insert_eq.
  assert (forall p, p ∈ image_paths ->
            exists data, fs1 !! p = Some data /\ image_load svc data = None) as Hload.
  { intros p Hin. destruct (Hi p Hin) as (data & Edata & Hdl).
    exists data. split; [done|]. by apply Hl. }
  rewrite (bind_Return _ _ _ _ _ (Ev Hfa Hd Hload)); clear Ev.
  rewrite !bind_emit.
  assert (final_animation <> temp_audiofile final_animation) as Hft by discriminate.
  erewrite bind_Return;
    [|unfold read_file; cbn [fs];
      by rewrite lookup_delete_ne, lookup_insert_eq by done].
  rewrite !bind_emit. cbn [fs log].
  eexists (l ++ l1 ++ [_; _; _; _; _; _; _; _]), _.
  split; [by rewrite <- !app_assoc|].
  split; [by rewrite lookup_delete_ne, lookup_insert_eq by done|].
  split; [apply lookup_delete_eq|].
  assert (forall p, p ∈ image_paths -> p <> final_animation
                                        /\ p <> temp_audiofile final_animation) as Himg.
  { intros p (i & ->)%successful_paths_image.
    split; intros E0; apply (f_equal head) in E0; discriminate E0. }
  split; [|split; [|split]].
  - rewrite lookup_delete_ne by (apply not_eq_sym, path_join_temp_not_audiofile).
    by rewrite lookup_insert_ne by (apply not_eq_sym, path_join_temp_not_final).
  - intros p Hin. destruct (Himg p Hin) as [Hp1 Hp2].
    rewrite lookup_delete_ne, lookup_insert_ne by done.
    destruct (Hi p Hin) as (data & -> & _). by eexists.
  - intros p Hsome.
    destruct (decide (p = final_animation)) as [->|Hp1]; [by right; right; right|].
    destruct (decide (p = temp_audiofile final_animation)) as [->|Hp2];
      [by rewrite lookup_delete_eq in Hsome; destruct Hsome|].
    rewrite lookup_delete_ne, lookup_insert_ne in Hsome by done.
    destruct (decide (p ∈ image_paths)) as [Hin|Hin]; [by right; right; left|].
    rewrite (Hf _ Hin) in Hsome.
    destruct (decide (p = audio_path)) as [->|Hp3]; [by right; left|].
    left. by rewrite lookup_insert_ne in Hsome.
  - intros p Hp1 Hp2 Hp3 Hin.
    rewrite lookup_delete_ne, lookup_insert_ne by done.
    rewrite (Hf _ Hin). by rewrite lookup_insert_ne.
Qed.

End HandlerFacts.

Section HandlerClaims.
Context {T : Type} `{Seconds T} (svc : services T).
Implicit Types (w : world T) (u : ui) (f : uploaded).

(** C5: when the segmentation of the transcript is empty, the run stops
    on the error message "no sentences extracted", having called neither
    the illustrator nor the assembler; only the uploaded audio was
    written. *)
Theorem C5_empty_segmentation_stops u f text w :
  button u = true ->
  uploaded_file u = Some f ->
  open_wb svc (path_join temp (name f)) = None ->
  transcriptions_create svc (getbuffer f) = inr text ->
  segment_text text = [] ->
  exists l,
    run_script svc u w
    = (Stopped,
       {| fs := <[path_join temp (name f) := getbuffer f]> (fs w);
          log := log w ++ l
                 ++ [StError (lit "Não foi possível extrair sentenças do áudio. Tente um áudio mais claro.")] |})
    /\ illustrator_calls l = []
    /\ no_assembler_call l.
Proof.
  intros Hb Hu Ho Ht Hs. unfold run_script. rewrite Hb.
  destruct (handler_reaches_segmentation svc u f text w Hu Ho Ht)
    as (l & rest & -> & Hq & Hc & ->).
  exists l. split; [|done].
  cbv zeta. rewrite Hs. unfold st_error.
  rewrite bind_assoc, bind_emit. cbn [fs log].
  by rewrite app_assoc.
Qed.

(** C3: when the transcript has sentences and the illustration of every
    one of them fails, the run stops on the error message "no image was
    generated": every sentence was tried, in order, and the assembler was
    never called. *)
Theorem C3_all_failed_stops u f text w :
  button u = true ->
  uploaded_file u = Some f ->
  open_wb svc (path_join temp (name f)) = None ->
  transcriptions_create svc (getbuffer f) = inr text ->
  segment_text text <> [] ->
  Forall (fun item => succeeds svc (style_options (selected_style u)) item = false)
    (enumerate (segment_text text)) ->
  exists l,
    run_script svc u w
    = (Stopped,
       {| fs := <[path_join temp (name f) := getbuffer f]> (fs w);
          log := log w ++ l
                 ++ [StError (lit "Nenhuma imagem foi gerada. Verifique os logs de erro.")] |})
    /\ illustrator_calls l = enumerate (segment_text text)
    /\ no_assembler_call l.
Proof.
  intros Hb Hu Ho Ht Hs Hall. unfold run_script. rewrite Hb.
  destruct (handler_reaches_segmentation svc u f text w Hu Ho Ht)
    as (l & rest & -> & Hq & Hc & ->).
  cbv zeta.
  destruct (segment_text text) as [|s ss] eqn:Es; [done|].
  rewrite <- Es in *. clear Es s ss Hs.
  set (style_prompt := style_options (selected_style u)) in *.
  set (items := enumerate (segment_text text)) in *.
  assert (successful_paths svc style_prompt items = []) as Enone.
  { unfold successful_paths.
    induction Hall as [|item items' Hi _ IH]; [done|].
    rewrite filter_cons. case_decide; [congruence|done]. }
  unfold ret at 1. unfold bind at 1.
  match goal with
  | |- context [bind (for_sentences _ _ ?n _ _) _ ?w1] =>
      destruct (for_sentences_spec svc style_prompt n items [] w1)
        as (l' & fs' & E & Hc' & Hq' & Hf & _)
  end.
  rewrite (bind_Return _ _ _ _ _ E), Enone. cbn [app].
  unfold st_error. rewrite bind_assoc, bind_emit. cbn [fs log] in *.
  exists (l ++ l'). split; [|split].
  - rewrite !app_assoc. do 2 f_equal.
    apply map_eq. intros p. apply Hf. rewrite Enone. apply not_elem_of_nil.
  - unfold illustrator_calls in *. by rewrite omap_app, Hc, Hc'.
  - by apply Forall_app.
Qed.

(** C4: the illustrator returns in every case, None exactly for the
    sentences whose illustration fails; and in a run in which at least one
    illustration succeeds, every sentence is tried, in order, and then the
    assembler is called, once, with exactly the paths of the images of
    the sentences that succeeded, in the order of the sentences. *)
Theorem C4_partial_failure_continues u f text w :
  button u = true ->
  uploaded_file u = Some f ->
  open_wb svc (path_join temp (name f)) = None ->
  transcriptions_create svc (getbuffer f) = inr text ->
  let style_prompt := style_options (selected_style u) in
  let items := enumerate (segment_text text) in
  let image_paths := successful_paths svc style_prompt items in
  0 < length image_paths ->
  (forall item w0, exists w1,
     generate_image_for_sentence svc item.2 style_prompt item.1 w0
     = (Return (if succeeds svc style_prompt item
                then Some (image_path_of item.1) else None), w1))
  /\ exists l1 l2 r fs',
       run_script svc u w
       = (r, {| fs := fs';
                log := log w ++ l1
                       ++ [Call_create_video_from_images image_paths
                             (path_join temp (name f)) final_animation]
                       ++ l2 |})
       /\ illustrator_calls l1 = items
       /\ no_assembler_call l1
       /\ no_assembler_call l2.
Proof.
  intros Hb Hu Ho Ht style_prompt items image_paths Hk. split.
  { intros [i sentence] w0. cbn [fst snd].
    rewrite generate_image_for_sentence_spec. unfold succeeds. cbn [fst snd].
    destruct (attempt svc style_prompt i sentence); eauto. }
  unfold run_script. rewrite Hb.
  destruct (handler_reaches_segmentation svc u f text w Hu Ho Ht)
    as (l & rest & -> & Hq & Hc & ->).
  cbv zeta. fold style_prompt items.
  assert (segment_text text <> []) as Hs.
  { intros E0. unfold image_paths, items in Hk. rewrite E0 in Hk.
    by inversion Hk. }
  assert (image_paths <> []) as Hp by (intros E0; rewrite E0 in Hk; by inversion Hk).
  rewrite (nonempty_branch _ _ _ Hs).
  unfold ret at 1. unfold bind at 1.
  match goal with
  | |- context [bind (for_sentences _ _ ?n _ _) _ ?w1] =>
      destruct (for_sentences_spec svc style_prompt n items [] w1)
        as (l' & fs1 & E & Hc' & Hq' & _ & _)
  end.
  rewrite (bind_Return _ _ _ _ _ E). cbn [app]. fold image_paths.
  rewrite (nonempty_branch _ _ _ Hp).
  unfold ret at 1. unfold bind at 1. rewrite bind_emit.
  unfold create_video_from_images. rewrite bind_assoc, bind_emit.
  cbn [fs log].
  match goal with
  | |- context [bind ?c ?k ?w3] =>
      destruct (appends_run quiet (bind c k) w3) as (r & fs' & l2 & E2 & Hq2)
  end.
  { apply appends_bind; [apply create_video_from_images_tail_quiet|].
    intros video_path. appends_auto. apply cleanup_quiet. }
  rewrite E2. cbn [log].
  eexists (l ++ l' ++ [_]), l2, r, fs'. split; [|split; [|split]].
  - f_equal. f_equal. by rewrite <- !app_assoc.
  - unfold illustrator_calls in *. rewrite !omap_app, Hc, Hc'.
    cbn. apply app_nil_r.
  - apply Forall_app. split; [done|]. apply Forall_app. split; [done|].
    by repeat constructor.
  - done.
Qed.


End HandlerClaims.

(** ** The assembler *)

(** C6: every clip that the assembler hands to [concatenate_videoclips],
    the first one and every one after it, carries one fade-in of 0.5
    second, and the clips are those of the images in the order of the
    images. *)
Theorem C6_fadein_every_clip
    (svc : services float) image_paths audio_path output_path (w : world float) adata D :
  image_paths <> [] ->
  fs w !! audio_path = Some adata ->
  audio_file_duration svc adata = inr D ->
  (forall p, In p image_paths ->
     exists data, fs w !! p = Some data /\ image_load svc data = None) ->
  exists final r fs',
    create_video_from_images svc image_paths audio_path output_path w
    = (r, {| fs := fs';
             log := log w
                    ++ [Call_create_video_from_images image_paths audio_path output_path;
                        WriteVideofile final output_path (lit "libx264") 24] |})
    /\ map clip_image (video_clips final) = image_paths
    /\ Forall (fun c => clip_effects c = [FadeIn 0.5%float]) (video_clips final).
Proof.
  intros Hne Ea Ed Hl.
  assert (forall p, p ∈ image_paths ->
            exists data, fs w !! p = Some data /\ image_load svc data = None) as Hl'
    by (intros p Hp%list_elem_of_In; by apply Hl).
  pose proof (create_video_from_images_spec svc image_paths audio_path
                output_path w adata D Hne Ea Ed Hl') as E.
  cbv zeta in E.
  eexists _, _, _. split; [exact E|].
  split.
  - cbn [final_clip_for video_clips]. rewrite map_map. apply map_id.
  - by apply Forall_forall; intros c (p & -> & _)%list_elem_of_fmap.
Qed.

(** The durations are binary64 numbers: ten seconds over two images are
    five seconds each and ten in total; one second over ten images is
    the binary64 number next to 0.1 each, and the ten add up to the
    binary64 number just below one second. *)
Example binary64_split_exact :
  let v := final_clip_for (T := float) [image_path_of 0; image_path_of 1] Sample.talk 10%float in
  map clip_duration (video_clips v) = [Some 5%float; Some 5%float]
  /\ video_duration v = 10%float.
Proof. split; reflexivity. Qed.

Example binary64_split_rounded :
  let v := final_clip_for (T := float) (map image_path_of (seq 0 10)) Sample.talk 1%float in
  Forall (fun c => clip_duration c = Some 0x1.999999999999ap-4%float) (video_clips v)
  /\ video_duration v = 0x1.fffffffffffffp-1%float.
Proof. split; [|reflexivity]. repeat constructor. Qed.

(** ** The claims at the sample environment *)

(** A whole run in which the first of two illustrations is refused: it
    ends normally, and the video is the only file left. *)
Example run_first_refused :
  let end_of_run := run_script Sample.first_refused Sample.upload Sample.empty_world in
  end_of_run.1 = Return tt
  /\ map_to_list (fs end_of_run.2) = [(final_animation, Sample.mp4)]
  /\ illustrator_calls (log end_of_run.2)
     = [(0, lit "Hello world"); (1, lit "This is a test")].
Proof. vm_compute. done. Qed.

(** Without any image the assembler fails before it encodes. *)
Example assembler_without_images :
  create_video_from_images Sample.all_fine [] Sample.talk final_animation Sample.staged
  = (Raise ZeroDivisionError,
     {| fs := fs (@Sample.staged float);
        log := [Call_create_video_from_images [] Sample.talk final_animation] |}).
Proof.
  rewrite (create_video_from_images_empty Sample.all_fine Sample.talk
             final_animation Sample.staged Sample.mp3 10%float);
    [done|by vm_compute|done].
Qed.

Lemma C6_fadein_every_clip_witness :
  (Sample.two_images <> []
   /\ fs (@Sample.staged float) !! Sample.talk = Some Sample.mp3
   /\ audio_file_duration Sample.all_fine Sample.mp3 = inr 10%float
   /\ (forall p, In p Sample.two_images ->
         exists data, fs (@Sample.staged float) !! p = Some data
                      /\ image_load Sample.all_fine data = None))
  /\ exists final r fs',
       create_video_from_images Sample.all_fine Sample.two_images
         Sample.talk final_animation Sample.staged
       = (r, {| fs := fs';
                log := log Sample.staged
                       ++ [Call_create_video_from_images Sample.two_images
                             Sample.talk final_animation;
                           WriteVideofile final final_animation (lit "libx264") 24] |})
       /\ map clip_image (video_clips final) = Sample.two_images
       /\ Forall (fun c => clip_effects c = [FadeIn 0.5%float]) (video_clips final).
Proof.
  assert (Sample.two_images <> []) as H1 by discriminate.
  assert (fs (@Sample.staged float) !! Sample.talk = Some Sample.mp3) as H2
    by (vm_compute; reflexivity).
  assert (audio_file_duration Sample.all_fine Sample.mp3 = inr 10%float) as H3
    by reflexivity.
  assert (forall p, In p Sample.two_images ->
            exists data, fs (@Sample.staged float) !! p = Some data
                         /\ image_load Sample.all_fine data = None) as H4.
  { intros p [<-|[<-|[]]]; exists Sample.png; split;
      first [reflexivity | vm_compute; reflexivity]. }
  split; [by repeat split|].
  exact (C6_fadein_every_clip Sample.all_fine Sample.two_images Sample.talk
           final_animation Sample.staged Sample.mp3 10%float H1 H2 H3 H4).
Defined.

Lemma C5_empty_segmentation_stops_witness :
  (button Sample.upload = true
   /\ uploaded_file Sample.upload = Some Sample.recording
   /\ open_wb Sample.nothing_said (path_join temp (name Sample.recording)) = None
   /\ transcriptions_create Sample.nothing_said (getbuffer Sample.recording)
      = inr Sample.silence
   /\ segment_text Sample.silence = [])
  /\ exists l,
       run_script Sample.nothing_said Sample.upload (@Sample.empty_world float)
       = (Stopped,
          {| fs := <[path_join temp (name Sample.recording) := getbuffer Sample.recording]>
                     (fs (@Sample.empty_world float));
             log := log (@Sample.empty_world float) ++ l
                    ++ [StError (lit "Não foi possível extrair sentenças do áudio. Tente um áudio mais claro.")] |})
       /\ illustrator_calls l = []
       /\ no_assembler_call l.
Proof.
  split; [by repeat split|].
  exact (C5_empty_segmentation_stops Sample.nothing_said Sample.upload
           Sample.recording Sample.silence (@Sample.empty_world float)
           eq_refl eq_refl eq_refl eq_refl eq_refl).
Defined.

Lemma C3_all_failed_stops_witness :
  (button Sample.upload = true
   /\ uploaded_file Sample.upload = Some Sample.recording
   /\ open_wb Sample.all_refused (path_join temp (name Sample.recording)) = None
   /\ transcriptions_create Sample.all_refused (getbuffer Sample.recording)
      = inr Sample.hello
   /\ segment_text Sample.hello <> []
   /\ Forall (fun item =>
                succeeds Sample.all_refused
                  (style_options (selected_style Sample.upload)) item = false)
        (enumerate (segment_text Sample.hello)))
  /\ exists l,
       run_script Sample.all_refused Sample.upload (@Sample.empty_world float)
       = (Stopped,
          {| fs := <[path_join temp (name Sample.recording) := getbuffer Sample.recording]>
                     (fs (@Sample.empty_world float));
             log := log (@Sample.empty_world float) ++ l
                    ++ [StError (lit "Nenhuma imagem foi gerada. Verifique os logs de erro.")] |})
       /\ illustrator_calls l = enumerate (segment_text Sample.hello)
       /\ no_assembler_call l.
Proof.
  assert (segment_text Sample.hello <> []) as H5 by discriminate.
  assert (Forall (fun item =>
                    succeeds Sample.all_refused
                      (style_options (selected_style Sample.upload)) item = false)
            (enumerate (segment_text Sample.hello))) as H6
    by (repeat constructor).
  split; [by repeat split|].
  exact (C3_all_failed_stops Sample.all_refused Sample.upload
           Sample.recording Sample.hello (@Sample.empty_world float)
           eq_refl eq_refl eq_refl eq_refl H5 H6).
Defined.

Lemma C4_partial_failure_continues_witness :
  (button Sample.upload = true
   /\ uploaded_file Sample.upload = Some Sample.recording
   /\ open_wb Sample.first_refused (path_join temp (name Sample.recording)) = None
   /\ transcriptions_create Sample.first_refused (getbuffer Sample.recording)
      = inr Sample.hello
   /\ 0 < length (successful_paths Sample.first_refused
                    (style_options (selected_style Sample.upload))
                    (enumerate (segment_text Sample.hello))))
  /\ successful_paths Sample.first_refused
       (style_options (selected_style Sample.upload))
       (enumerate (segment_text Sample.hello)) = [image_path_of 1]
  /\ exists l1 l2 r fs',
       run_script Sample.first_refused Sample.upload (@Sample.empty_world float)
       = (r, {| fs := fs';
                log := log (@Sample.empty_world float) ++ l1
                       ++ [Call_create_video_from_images [image_path_of 1]
                             (path_join temp (name Sample.recording)) final_animation]
                       ++ l2 |})
       /\ illustrator_calls l1 = enumerate (segment_text Sample.hello)
       /\ no_assembler_call l1
       /\ no_assembler_call l2.
Proof.
  assert (0 < length (successful_paths Sample.first_refused
                        (style_options (selected_style Sample.upload))
                        (enumerate (segment_text Sample.hello)))) as H5
    by (vm_compute; lia).
  split; [by repeat split|].
  split; [reflexivity|].
  exact (proj2 (C4_partial_failure_continues Sample.first_refused Sample.upload
                  Sample.recording Sample.hello (@Sample.empty_world float)
                  eq_refl eq_refl eq_refl eq_refl H5)).
Defined.



(** * Further properties *)

(** ** The segmenter: composition, content and size *)

Section SegmenterMore.
Implicit Types (s p t e : list N) (c sep : N).

Lemma split_app sep s t :
  split sep (s ++ sep :: t) = split sep s ++ split sep t.
Proof.
  induction s as [|a s IH].
  - simpl. unfold char_eqb. by rewrite N.eqb_refl.
  - rewrite <- app_comm_cons, !split_cons, IH.
    destruct (char_eqb a sep); [done|].
    destruct (split sep s) as [|q qs] eqn:E; [by destruct (split_not_nil sep s)|done].
Qed.

Lemma split_length sep s :
  length (split sep s) = S (length (filter (fun c => c = sep) s)).
Proof.
  induction s as [|a s IH]; [done|].
  rewrite split_cons, filter_cons.
  destruct (char_eqb a sep) eqn:E.
  - apply char_eqb_eq in E. case_decide; [|done]. simpl. by rewrite IH.
  - apply char_eqb_neq in E. case_decide; [done|].
    destruct (split sep s) as [|q qs] eqn:Es; [by destruct (split_not_nil sep s)|].
    simpl in *. done.
Qed.

Lemma concat_split sep s :
  concat (split sep s) = filter (fun c => c <> sep) s.
Proof.
  induction s as [|a s IH]; [done|].
  rewrite split_cons, filter_cons.
  destruct (char_eqb a sep) eqn:E.
  - apply char_eqb_eq in E. case_decide; [done|]. simpl. by rewrite IH.
  - apply char_eqb_neq in E. case_decide; [|done].
    destruct (split sep s) as [|q qs] eqn:Es; [by destruct (split_not_nil sep s)|].
    simpl in *. by rewrite IH.
Qed.

(** The two [replace] calls turn every delimiter into a dot. *)
Lemma normalized_map t :
  normalized t = map (fun c => if is_delimiter c then dot else c) t.
Proof.
  unfold normalized, replace. rewrite map_map. apply map_ext. intros c.
  unfold is_delimiter.
  destruct (char_eqb c bang) eqn:Eb.
  - apply char_eqb_eq in Eb as ->. done.
  - destruct (char_eqb c qmark) eqn:Eq.
    + by rewrite orb_true_r.
    + rewrite !orb_false_r. by destruct (char_eqb c dot) eqn:Ed; [apply char_eqb_eq in Ed|].
Qed.

Lemma normalized_delimiters t :
  filter (fun c => c = dot) (normalized t) = map (fun _ => dot) (delimiters_of t).
Proof.
  rewrite normalized_map. unfold delimiters_of.
  induction t as [|a t IH]; [done|].
  cbn [map]. rewrite !filter_cons.
  destruct (is_delimiter a) eqn:E.
  - do 2 (case_decide; [|done]). cbn [map]. by rewrite IH.
  - apply is_delimiter_false in E as (Hd & _).
    do 2 (case_decide; [done|]). done.
Qed.

Lemma normalized_ink t :
  filter (fun c => c <> dot) (normalized t)
  = filter (fun c => is_delimiter c = false) t.
Proof.
  rewrite normalized_map.
  induction t as [|a t IH]; [done|].
  cbn [map]. rewrite !filter_cons.
  destruct (is_delimiter a) eqn:E.
  - do 2 (case_decide; [done|]). done.
  - apply is_delimiter_false in E as (Hd & _).
    do 2 (case_decide; [|done]). by rewrite IH.
Qed.

Lemma lstrip_visible s : visible (lstrip s) = visible s.
Proof.
  unfold visible. induction s as [|a s IH]; [done|].
  simpl. destruct (isspace a) eqn:E; [|done].
  rewrite filter_cons. case_decide; [congruence|done].
Qed.

Lemma rstrip_visible s : visible (rstrip s) = visible s.
Proof.
  unfold visible. induction s as [|a s IH]; [done|].
  rewrite rstrip_cons, (filter_cons _ a s), <- IH.
  destruct (rstrip s) as [|b r] eqn:Er; cbn [truthy].
  - destruct (isspace a) eqn:E; rewrite ?filter_cons, ?filter_nil;
      repeat case_decide; congruence.
  - by rewrite (filter_cons _ a (b :: r)).
Qed.

Lemma strip_visible s : visible (strip s) = visible s.
Proof. unfold strip. by rewrite rstrip_visible, lstrip_visible. Qed.

Lemma lstrip_sublist s : lstrip s `sublist_of` s.
Proof.
  induction s as [|a s IH]; simpl; [done|].
  destruct (isspace a); [by apply sublist_cons|done].
Qed.

Lemma rstrip_sublist s : rstrip s `sublist_of` s.
Proof.
  induction s as [|a s IH]; [done|].
  rewrite rstrip_cons.
  destruct (truthy (rstrip s)); [by apply sublist_skip|].
  destruct (isspace a); [apply sublist_nil_l|].
  apply sublist_skip, sublist_nil_l.
Qed.

Lemma strip_sublist s : strip s `sublist_of` s.
Proof.
  unfold strip. etrans; [apply rstrip_sublist|apply lstrip_sublist].
Qed.

Lemma sentences_sublist (pieces : list (list N)) :
  concat (map strip (filter (fun s => truthy (strip s) = true) pieces))
  `sublist_of` concat pieces.
Proof.
  induction pieces as [|p pieces IH]; [done|].
  rewrite filter_cons. case_decide.
  - simpl. apply sublist_app; [apply strip_sublist|done].
  - simpl. by apply sublist_inserts_l.
Qed.

Lemma visible_app s t : visible (s ++ t) = visible s ++ visible t.
Proof. apply filter_app. Qed.

Lemma sentences_visible (pieces : list (list N)) :
  visible (concat (map strip (filter (fun s => truthy (strip s) = true) pieces)))
  = visible (concat pieces).
Proof.
  induction pieces as [|p pieces IH]; [done|].
  rewrite filter_cons. case_decide as Hp.
  - cbn [map concat]. by rewrite !visible_app, IH, strip_visible.
  - cbn [concat]. rewrite visible_app, IH, <- (strip_visible p).
    apply not_true_is_false, truthy_false in Hp. by rewrite Hp.
Qed.

(** X1: a delimiter cuts the text in two: the sentences of [s + d + t],
    for a delimiter d, are those of s followed by those of t. *)
Theorem X1_segment_text_app (s t : list N) (d : N) :
  is_delimiter d = true ->
  segment_text (s ++ d :: t) = segment_text s ++ segment_text t.
Proof.
  intros Hd. rewrite !segment_text_unfold, !normalized_map.
  rewrite map_app. cbn [map]. rewrite Hd, split_app.
  by rewrite filter_app, map_app.
Qed.

Lemma X1_segment_text_app_witness :
  is_delimiter qmark = true
  /\ segment_text (lit "Tudo bem" ++ qmark :: lit " Sim. Vamos!")
     = segment_text (lit "Tudo bem") ++ segment_text (lit " Sim. Vamos!").
Proof.
  split; [reflexivity|].
  exact (X1_segment_text_app (lit "Tudo bem") (lit " Sim. Vamos!") qmark eq_refl).
Defined.

(** X2: the three delimiters are interchangeable: rewriting the
    delimiters of a text into other delimiters, and nothing else, does
    not change its sentences. *)
Theorem X2_segment_text_delimiters_alike (f : N -> N) (t : list N) :
  (forall c, is_delimiter c = true -> is_delimiter (f c) = true) ->
  (forall c, is_delimiter c = false -> f c = c) ->
  segment_text (map f t) = segment_text t.
Proof.
  intros Hd Hn. rewrite !segment_text_unfold, !normalized_map, map_map.
  do 3 f_equal. apply map_ext. intros c.
  destruct (is_delimiter c) eqn:E.
  - by rewrite (Hd c E).
  - by rewrite (Hn c E), E.
Qed.

Lemma X2_segment_text_delimiters_alike_witness :
  ((forall c, is_delimiter c = true ->
      is_delimiter (if is_delimiter c then bang else c) = true)
   /\ (forall c, is_delimiter c = false ->
         (if is_delimiter c then bang else c) = c))
  /\ segment_text (map (fun c => if is_delimiter c then bang else c)
                     (lit "Hello world. This is a test."))
     = segment_text (lit "Hello world. This is a test.").
Proof.
  assert (forall c, is_delimiter c = true ->
            is_delimiter (if is_delimiter c then bang else c) = true) as H1
    by (intros c ->; reflexivity).
  assert (forall c, is_delimiter c = false ->
            (if is_delimiter c then bang else c) = c) as H2
    by (intros c ->; reflexivity).
  split; [by split|].
  exact (X2_segment_text_delimiters_alike _ _ H1 H2).
Defined.

(** X3: nothing visible is lost or invented: the characters of the
    sentences that are no white space are, in order, the characters of
    the text that are neither white space nor delimiters. *)
Theorem X3_segment_text_keeps_ink (t : list N) :
  visible (concat (segment_text t)) = ink t.
Proof.
  rewrite segment_text_unfold, sentences_visible, concat_split, normalized_ink.
  unfold visible, ink. apply list_filter_filter.
Qed.

(** X4: the sentences, one after the other, are the text with some
    characters left out: their characters come in the order of the text,
    inner white space included. *)
Theorem X4_segment_text_in_order (t : list N) :
  concat (segment_text t) `sublist_of` t.
Proof.
  rewrite segment_text_unfold.
  etrans; [apply sentences_sublist|].
  rewrite concat_split, normalized_ink. apply sublist_filter.
Qed.

(** X5: a text has at most one sentence more than it has delimiters. *)
Theorem X5_segment_text_length (t : list N) :
  length (segment_text t) <= S (length (delimiters_of t)).
Proof.
  rewrite segment_text_unfold, length_map.
  etrans; [apply length_filter|].
  by rewrite split_length, normalized_delimiters, length_map.
Qed.

End SegmenterMore.

(** ** Paths *)

Section PathFacts.
Implicit Types (n p : list N) (i j : nat).

Lemma decode_utf8_ascii (bs : list N) :
  Forall (fun b => (b < 128)%N) bs -> decode_utf8 0 0%N bs = bs.
Proof.
  induction 1 as [|b bs Hb _ IH]; [done|].
  cbn [decode_utf8]. apply N.ltb_lt in Hb. by rewrite Hb, IH.
Qed.

Lemma decimal_ascii (d : Decimal.uint) :
  Forall (fun b => (b < 128)%N)
    (map N_of_ascii (list_ascii_of_string (NilEmpty.string_of_uint d))).
Proof. induction d; cbn; constructor; done. Qed.

Lemma of_nat_inj i j : of_nat i = of_nat j -> i = j.
Proof.
  unfold of_nat, lit. rewrite !decode_utf8_ascii by apply decimal_ascii.
  intros E. apply (f_equal (map ascii_of_N)) in E.
  assert (forall l, map ascii_of_N (map N_of_ascii l) = l) as Hback.
  { intros l. rewrite map_map. induction l as [|a l IH]; [done|].
    cbn [map]. by rewrite ascii_N_embedding, IH. }
  rewrite !Hback in E.
  apply (f_equal string_of_list_ascii) in E.
  rewrite !string_of_list_ascii_of_string in E.
  apply (f_equal NilEmpty.uint_of_string) in E.
  rewrite !NilEmpty.usu in E.
  apply Unsigned.to_uint_inj. congruence.
Qed.

Lemma image_path_of_injective i j :
  image_path_of i = image_path_of j -> i = j.
Proof.
  rewrite !image_path_of_eq. intros E.
  apply app_inv_head, app_inv_tail in E. by apply of_nat_inj.
Qed.

(** X6: the images of two different sentences are saved under two
    different names, so that no image overwrites another. *)
Theorem X6_image_path_of_inj i j :
  i <> j -> image_path_of i <> image_path_of j.
Proof. intros Hne E. by apply Hne, image_path_of_injective. Qed.

Lemma X6_image_path_of_inj_witness :
  1 <> 10 /\ image_path_of 1 <> image_path_of 10.
Proof.
  assert (1 <> 10) as Hne by discriminate.
  split; [exact Hne|].
  exact (X6_image_path_of_inj 1 10 Hne).
Defined.

(** A name that starts with '/' replaces "temp" altogether. *)
Example path_join_absolute :
  path_join temp (lit "/etc/passwd") = lit "/etc/passwd".
Proof. reflexivity. Qed.

End PathFacts.

(** ** The illustration loop and the files *)

Section LoopFiles.
Context {T : Type} (svc : services T).
Implicit Types (w : world T) (p : list N) (items : list (nat * list N)).

Lemma enumerate_elem {A} (l : list A) i (x : A) :
  (i, x) ∈ enumerate l <-> l !! i = Some x.
Proof.
  unfold enumerate, zip. rewrite list_elem_of_lookup. split.
  - intros (k & Hk). apply lookup_zip_with_Some in Hk as (j & y & [= -> ->] & Hj & Hy).
    apply lookup_seq in Hj as [-> _]. done.
  - intros Hx. exists i. apply lookup_zip_with_Some. exists i, x.
    split; [done|]. split; [|done].
    apply lookup_seq. split; [done|]. by eapply lookup_lt_Some.
Qed.

Lemma enumerate_indices {A} (l : list A) : NoDup (enumerate l).*1.
Proof.
  unfold enumerate. rewrite fst_zip by (by rewrite length_seq).
  apply NoDup_seq.
Qed.

Lemma successful_paths_elem style_prompt items p :
  p ∈ successful_paths svc style_prompt items <->
  exists item, item ∈ items /\ succeeds svc style_prompt item = true
               /\ p = image_path_of item.1.
Proof.
  unfold successful_paths. rewrite list_elem_of_fmap. split.
  - intros (item & -> & [Hs Hin]%list_elem_of_filter). by exists item.
  - intros (item & Hin & Hs & ->). exists item. split; [done|].
    by apply list_elem_of_filter.
Qed.

Lemma for_sentences_step style_prompt total i sentence rest image_paths w :
  match attempt svc style_prompt i sentence with
  | inr data =>
      exists lg,
        for_sentences svc style_prompt total ((i, sentence) :: rest) image_paths w
        = for_sentences svc style_prompt total rest (image_paths ++ [image_path_of i])
            {| fs := <[image_path_of i := data]> (fs w); log := lg |}
  | inl e =>
      exists lg,
        for_sentences svc style_prompt total ((i, sentence) :: rest) image_paths w
        = for_sentences svc style_prompt total rest image_paths
            {| fs := fs w; log := lg |}
  end.
Proof.
  cbn [for_sentences]. rewrite bind_emit.
  match goal with
  | |- context [bind (generate_image_for_sentence _ _ _ _) _ ?w1] =>
      pose proof (generate_image_for_sentence_spec svc sentence style_prompt i w1) as Eg
  end.
  destruct (attempt svc style_prompt i sentence) as [e|data];
    rewrite (bind_Return _ _ _ _ _ Eg); cbn [fs log]; eexists; [reflexivity|].
  by rewrite image_path_of_truthy.
Qed.

Lemma for_sentences_files style_prompt total items image_paths w i sentence data :
  NoDup items.*1 ->
  (i, sentence) ∈ items ->
  attempt svc style_prompt i sentence = inr data ->
  fs (for_sentences svc style_prompt total items image_paths w).2
    !! image_path_of i = Some data.
Proof.
  revert image_paths w.
  induction items as [|[j s] rest IH]; intros image_paths w Hnd Hin Ha;
    [by apply elem_of_nil in Hin|].
  cbn [fmap list_fmap fst] in Hnd. apply NoDup_cons in Hnd as [Hj Hnd].
  pose proof (for_sentences_step style_prompt total j s rest image_paths w) as Hstep.
  apply elem_of_cons in Hin as [[= -> ->]|Hin].
  - rewrite Ha in Hstep. destruct Hstep as (lg & ->).
    match goal with
    | |- context [for_sentences _ _ _ rest ?acc ?w1] =>
        destruct (for_sentences_spec svc style_prompt total rest acc w1)
          as (l & fs' & E & _ & _ & Hf & _)
    end.
    rewrite E. cbn [snd fs] in *. rewrite Hf; [apply lookup_insert_eq|].
    intros ([k s'] & Hk & _ & Ek)%successful_paths_elem. cbn [fst] in Ek.
    apply image_path_of_injective in Ek as <-.
    apply Hj, list_elem_of_fmap. by exists (j, s').
  - destruct (attempt svc style_prompt j s) as [e|data'];
      destruct Hstep as (lg & ->); by apply IH.
Qed.

Lemma fetch_fails_attempt style_prompt i sentence :
  fetch_fails svc style_prompt i sentence = true ->
  succeeds svc style_prompt (i, sentence) = false.
Proof.
  unfold fetch_fails, succeeds, attempt. cbn [fst snd].
  destruct (images_generate svc i _) as [e|image_url]; [done|].
  by destruct (requests_get svc i image_url) as [e|image_data].
Qed.

(** X8: when the loop over the sentences is over, the image of every
    sentence whose illustration succeeded holds the data downloaded for
    that sentence; the image file of a sentence for which the request to
    the image service or the download raised is as it was before (an
    image left there by an earlier run stays); and no file other than the
    images is touched. *)
Theorem X8_loop_saves_each_image style_prompt total (sentences : list (list N)) w :
  let end_of_loop :=
    (for_sentences svc style_prompt total (enumerate sentences) [] w).2 in
  (forall i sentence data,
     sentences !! i = Some sentence ->
     attempt svc style_prompt i sentence = inr data ->
     fs end_of_loop !! image_path_of i = Some data)
  /\ (forall i sentence,
        sentences !! i = Some sentence ->
        fetch_fails svc style_prompt i sentence = true ->
        fs end_of_loop !! image_path_of i = fs w !! image_path_of i)
  /\ (forall p, (forall i, p <> image_path_of i) ->
        fs end_of_loop !! p = fs w !! p).
Proof.
  intros end_of_loop. split; [|split].
  - intros i sentence data Hi Ha.
    apply (for_sentences_files _ _ _ _ _ i sentence data);
      [apply enumerate_indices| |done].
    by apply enumerate_elem.
  - intros i sentence Hi Hs%fetch_fails_attempt. subst end_of_loop.
    destruct (for_sentences_spec svc style_prompt total (enumerate sentences) [] w)
      as (l & fs' & E & _ & _ & Hf & _).
    rewrite E. cbn [snd fs]. apply Hf.
    intros ([k s'] & Hk & Hok & Ek)%successful_paths_elem. cbn [fst] in Ek.
    apply image_path_of_injective in Ek as <-.
    apply enumerate_elem in Hk. congruence.
  - intros p Hp. subst end_of_loop.
    destruct (for_sentences_spec svc style_prompt total (enumerate sentences) [] w)
      as (l & fs' & E & _ & _ & Hf & _).
    rewrite E. cbn [snd fs]. apply Hf.
    intros (i & ->)%successful_paths_image. by apply (Hp i).
Qed.

End LoopFiles.

(** ** The assembler: failures and files *)

Section AssemblerMore.
Context {T : Type} `{Seconds T} (svc : services T).
Implicit Types (w : world T) (p : list N).

Lemma reads_only_ret {A} (a : A) : reads_only (@ret T A a).
Proof. done. Qed.

Lemma reads_only_raise {A} e : reads_only (@raise T A e).
Proof. done. Qed.

Lemma reads_only_emit (e : event T) : reads_only (emit e).
Proof. done. Qed.

Lemma reads_only_lift {A} (r : exn + A) : reads_only (@lift T A r).
Proof. by destruct r. Qed.

Lemma reads_only_read_file p : reads_only (@read_file T p).
Proof. intros w. unfold read_file. by destruct (fs w !! p). Qed.

Lemma reads_only_bind {A B} (c : M T A) (k : A -> M T B) :
  reads_only c -> (forall a, reads_only (k a)) -> reads_only (bind c k).
Proof.
  intros Hc Hk w. unfold bind. specialize (Hc w).
  destruct (c w) as [[a|e|] w1]; simpl in *; [|done..].
  by rewrite Hk.
Qed.

Lemma reads_only_AudioFileClip p : reads_only (AudioFileClip svc p).
Proof.
  unfold AudioFileClip.
  apply reads_only_bind; [apply reads_only_read_file|]. intros data.
  apply reads_only_bind; [apply reads_only_lift|]. intros d. apply reads_only_ret.
Qed.

Lemma reads_only_ImageClip p : reads_only (ImageClip svc p).
Proof.
  unfold ImageClip.
  apply reads_only_bind; [apply reads_only_read_file|]. intros data.
  destruct (image_load svc data); [apply reads_only_raise|apply reads_only_ret].
Qed.

Lemma reads_only_for_image_paths image_paths d clips :
  reads_only (for_image_paths svc image_paths d clips).
Proof.
  revert clips. induction image_paths as [|p rest IH]; intros clips;
    cbn [for_image_paths]; [apply reads_only_ret|].
  apply reads_only_bind; [apply reads_only_ImageClip|]. intros c. apply IH.
Qed.

Lemma reads_only_true_div (a : T) n : reads_only (true_div a n).
Proof. destruct n; [apply reads_only_raise|apply reads_only_ret]. Qed.

Lemma reads_only_concatenate_videoclips (clips : list (image_clip T)) :
  reads_only (concatenate_videoclips clips).
Proof.
  unfold concatenate_videoclips.
  destruct (mapM clip_duration clips); [apply reads_only_ret|apply reads_only_raise].
Qed.

Lemma writes_output_bind {A} q (c : M T A) (k : A -> M T (list N)) w :
  reads_only c ->
  (forall a w1, writes_output svc q (fs w1) (k a w1)) ->
  writes_output svc q (fs w) (bind c k w).
Proof.
  intros Hc Hk. unfold bind. specialize (Hc w).
  destruct (c w) as [[a|e|] w1] eqn:E; simpl in Hc;
    [|by rewrite <- Hc..].
  rewrite <- Hc. apply Hk.
Qed.

(** X9: called without any image, the assembler raises before it builds
    a clip or encodes anything and leaves the files as they are: the
    error of the audio track if that cannot be read, and otherwise
    ZeroDivisionError, from the division by the number of images. *)
Theorem X9_assembler_without_images audio_path output_path w :
  create_video_from_images svc [] audio_path output_path w
  = (Raise (no_images_error svc (fs w) audio_path),
     {| fs := fs w;
        log := log w ++ [Call_create_video_from_images [] audio_path output_path] |}).
Proof.
  unfold create_video_from_images, no_images_error. rewrite bind_emit.
  unfold bind, AudioFileClip, bind, read_file. cbn [fs].
  destruct (fs w !! audio_path) as [data|]; [|done].
  by destruct (audio_file_duration svc data).
Qed.

(** X10: whatever it is called with and however it ends, the assembler
    changes no file other than [output_path] and the temporary audio file
    that the encoder makes next to it; and when it returns, it returns
    [output_path], that file holds what the encoder has produced, and the
    temporary audio file is not there. *)
Theorem X10_assembler_writes_output image_paths audio_path output_path w :
  writes_output svc output_path (fs w)
    (create_video_from_images svc image_paths audio_path output_path w).
Proof.
  unfold create_video_from_images.
  apply writes_output_bind; [apply reads_only_emit|]. intros _ w1. clear w.
  apply writes_output_bind; [apply reads_only_AudioFileClip|]. intros a w2. clear w1.
  apply writes_output_bind; [apply reads_only_true_div|]. intros d w3. clear w2.
  apply writes_output_bind; [apply reads_only_for_image_paths|]. intros clips w4. clear w3.
  apply writes_output_bind; [apply reads_only_concatenate_videoclips|]. intros v w5. clear w4.
  unfold write_videofile. rewrite bind_assoc, bind_emit.
  unfold writes_output, bind, ret, set_audio. cbn [video_audio].
  destruct (encode_video svc _ _ _) as [[e behind]|data] eqn:Ee; cbn.
  - split; [|done]. intros p Hq Ha.
    destruct (left_output behind), (left_audio behind); cbn;
      by rewrite ?lookup_insert_ne.
  - split.
    + intros p Hq Ha. by rewrite lookup_delete_ne, lookup_insert_ne.
    + split; [done|]. eauto.
Qed.

Lemma for_image_paths_fails image_paths d clips w :
  forallb (loadable svc (fs w)) image_paths = false ->
  exists e, for_image_paths svc image_paths d clips w = (Raise e, w).
Proof.
  revert clips. induction image_paths as [|p rest IH]; intros clips; [done|].
  cbn [forallb for_image_paths]. unfold loadable at 1.
  destruct (fs w !! p) as [data|] eqn:Ef.
  - destruct (image_load svc data) as [e|] eqn:El.
    + intros _. exists e. unfold bind, ImageClip, bind, read_file.
      by rewrite Ef, El.
    + rewrite andb_true_l. intros Hrest.
      assert (ImageClip svc p w
              = (Return {| clip_image := p; clip_duration := None;
                           clip_effects := [] |}, w)) as Ei.
      { unfold ImageClip, bind, read_file. by rewrite Ef, El. }
      rewrite (bind_Return _ _ _ _ _ Ei). by apply IH.
  - intros _. exists (FileNotFoundError p).
    unfold bind, ImageClip, bind, read_file. by rewrite Ef.
Qed.

(** X11: one image that is missing or cannot be loaded is enough for the
    assembler to raise before anything is encoded: the encoder is not
    called and no file changes. *)
Theorem X11_assembler_unloadable_image image_paths audio_path output_path w adata D :
  fs w !! audio_path = Some adata ->
  audio_file_duration svc adata = inr D ->
  forallb (loadable svc (fs w)) image_paths = false ->
  exists e,
    create_video_from_images svc image_paths audio_path output_path w
    = (Raise e,
       {| fs := fs w;
          log := log w
                 ++ [Call_create_video_from_images image_paths audio_path output_path] |}).
Proof.
  intros Ea Ed Hl.
  unfold create_video_from_images. rewrite bind_emit.
  match goal with |- context [bind (AudioFileClip _ _) _ ?w1] => set (w1' := w1) end.
  assert (AudioFileClip svc audio_path w1'
          = (Return {| audio_source := audio_path; audio_duration := D |}, w1')) as E1.
  { unfold AudioFileClip, bind, read_file. cbn [fs w1']. by rewrite Ea, Ed. }
  rewrite (bind_Return _ _ _ _ _ E1). cbn [audio_duration].
  assert (true_div D (length image_paths) w1'
          = (Return (sec_div D (length image_paths)), w1')) as E2
    by by destruct image_paths.
  rewrite (bind_Return _ _ _ _ _ E2).
  destruct (for_image_paths_fails image_paths (sec_div D (length image_paths)) [] w1' Hl)
    as (e & E3).
  exists e. by rewrite (bind_Raise _ _ _ _ _ E3).
Qed.

End AssemblerMore.

(** X18: the uniform split as the interpreter computes it.  Called with
    n > 0 loadable images and a readable audio track of duration D, the
    assembler hands to the encoder n clips that last the binary64
    quotient D / n each, in a video that lasts their binary64 sum, added
    from 0 in order, and that carries the audio track. *)
Theorem X18_binary64_split
    (svc : services float) image_paths audio_path output_path (w : world float) adata D :
  image_paths <> [] ->
  fs w !! audio_path = Some adata ->
  audio_file_duration svc adata = inr D ->
  (forall p, In p image_paths ->
     exists data, fs w !! p = Some data /\ image_load svc data = None) ->
  let n := length image_paths in
  let d := PrimFloat.div D (float_of_nat n) in
  exists final,
    log (create_video_from_images svc image_paths audio_path output_path w).2
    = log w
      ++ [Call_create_video_from_images image_paths audio_path output_path;
          WriteVideofile final output_path (lit "libx264") 24]
    /\ map clip_duration (video_clips final) = repeat (Some d) n
    /\ video_duration final = fold_left PrimFloat.add (repeat d n) 0%float
    /\ video_audio final
       = Some {| audio_source := audio_path; audio_duration := D |}.
Proof.
  intros Hne Ea Ed Hl n d.
  assert (forall p, p ∈ image_paths ->
            exists data, fs w !! p = Some data /\ image_load svc data = None) as Hl'
    by (intros p Hp%list_elem_of_In; by apply Hl).
  pose proof (create_video_from_images_spec svc image_paths audio_path
                output_path w adata D Hne Ea Ed Hl') as E.
  cbv zeta in E. rewrite E. cbn [snd log].
  eexists. split; [reflexivity|].
  cbn [final_clip_for video_clips video_duration video_audio sec_div sec_add
         sec_zero binary64].
  fold n d. subst n. clear.
  assert (forall (A : Type) (x : A), map (fun _ : list N => x) image_paths
                                     = repeat x (length image_paths)) as Hrep.
  { intros A x. induction image_paths as [|p l IH]; [done|]. cbn. by rewrite IH. }
  split; [|split; [|done]].
  - rewrite map_map. cbn [clip_for clip_duration]. apply Hrep.
  - by rewrite Hrep.
Qed.

Lemma X18_binary64_split_witness :
  (map image_path_of (seq 0 10) <> []
   /\ fs (@Sample.ten_staged float) !! Sample.talk = Some Sample.mp3
   /\ audio_file_duration Sample.one_second Sample.mp3 = inr 1%float
   /\ (forall p, In p (map image_path_of (seq 0 10)) ->
         exists data, fs (@Sample.ten_staged float) !! p = Some data
                      /\ image_load Sample.one_second data = None))
  /\ exists final,
       log (create_video_from_images Sample.one_second (map image_path_of (seq 0 10))
              Sample.talk final_animation Sample.ten_staged).2
       = log (@Sample.ten_staged float)
         ++ [Call_create_video_from_images (map image_path_of (seq 0 10))
               Sample.talk final_animation;
             WriteVideofile final final_animation (lit "libx264") 24]
       /\ map clip_duration (video_clips final)
          = repeat (Some 0x1.999999999999ap-4%float) 10
       /\ video_duration final = 0x1.fffffffffffffp-1%float
       /\ video_audio final
          = Some {| audio_source := Sample.talk; audio_duration := 1%float |}.
Proof.
  assert (map image_path_of (seq 0 10) <> []) as H1 by discriminate.
  assert (fs (@Sample.ten_staged float) !! Sample.talk = Some Sample.mp3) as H2
    by (vm_compute; reflexivity).
  assert (forall p, In p (map image_path_of (seq 0 10)) ->
            exists data, fs (@Sample.ten_staged float) !! p = Some data
                         /\ image_load Sample.one_second data = None) as H4.
  { intros p Hp. exists Sample.png. split; [|reflexivity].
    repeat (destruct Hp as [<-|Hp]; [vm_compute; reflexivity|]). destruct Hp. }
  split; [by repeat split|].
  exact (X18_binary64_split Sample.one_second (map image_path_of (seq 0 10))
           Sample.talk final_animation Sample.ten_staged Sample.mp3 1%float
           H1 H2 eq_refl H4).
Defined.

Lemma X11_assembler_unloadable_image_witness :
  (fs (@Sample.staged float) !! Sample.talk = Some Sample.mp3
   /\ audio_file_duration Sample.all_fine Sample.mp3 = inr 10%float
   /\ forallb (loadable Sample.all_fine (fs (@Sample.staged float)))
        [image_path_of 0; image_path_of 7] = false)
  /\ exists e,
       create_video_from_images Sample.all_fine [image_path_of 0; image_path_of 7]
         Sample.talk final_animation Sample.staged
       = (Raise e,
          {| fs := fs (@Sample.staged float);
             log := log (@Sample.staged float)
                    ++ [Call_create_video_from_images [image_path_of 0; image_path_of 7]
                          Sample.talk final_animation] |}).
Proof.
  assert (fs (@Sample.staged float) !! Sample.talk = Some Sample.mp3) as H1
    by (vm_compute; reflexivity).
  assert (forallb (loadable Sample.all_fine (fs (@Sample.staged float)))
            [image_path_of 0; image_path_of 7] = false) as H3
    by (vm_compute; reflexivity).
  split; [by repeat split|].
  exact (X11_assembler_unloadable_image Sample.all_fine
           [image_path_of 0; image_path_of 7] Sample.talk final_animation
           Sample.staged Sample.mp3 10%float H1 eq_refl H3).
Defined.

(** ** The handler: failures, progress and cleanup *)

Section KeepsFacts.
Context {T : Type}.
Implicit Types (w : world T) (p q : list N).

Lemma reads_only_keeps {A} p (c : M T A) : reads_only c -> keeps p c.
Proof. intros Hc w Hp. by rewrite Hc. Qed.

Lemma keeps_ret {A} p (a : A) : keeps p (@ret T A a).
Proof. by intros w. Qed.

Lemma keeps_raise {A} p e : keeps p (@raise T A e).
Proof. by intros w. Qed.

Lemma keeps_st_stop {A} p : keeps p (@st_stop T A).
Proof. by intros w. Qed.

Lemma keeps_emit p (e : event T) : keeps p (emit e).
Proof. by intros w. Qed.

Lemma keeps_lift {A} p (r : exn + A) : keeps p (@lift T A r).
Proof. destruct r; [apply keeps_raise|apply keeps_ret]. Qed.

Lemma keeps_read_file p q : keeps p (@read_file T q).
Proof. intros w Hp. unfold read_file. by destruct (fs w !! q). Qed.

Lemma keeps_write_file (svc : services T) p q data :
  keeps p (write_file svc q data).
Proof.
  intros w Hp. unfold write_file.
  destruct (open_wb svc q); [done|]. cbn.
  destruct (decide (q = p)) as [->|Hne].
  - rewrite lookup_insert_eq. by eexists.
  - by rewrite lookup_insert_ne.
Qed.

Lemma keeps_bind {A B} p (c : M T A) (k : A -> M T B) :
  keeps p c -> (forall a, keeps p (k a)) -> keeps p (bind c k).
Proof.
  intros Hc Hk w Hp. unfold bind. specialize (Hc w Hp).
  destruct (c w) as [[a|e|] w1]; simpl in *; [|done..].
  by apply Hk.
Qed.

Lemma keeps_try_except {A} p (body : M T A) (handler : exn -> M T A) :
  keeps p body -> (forall e, keeps p (handler e)) -> keeps p (try_except body handler).
Proof.
  intros Hc Hk w Hp. unfold try_except. specialize (Hc w Hp).
  destruct (body w) as [[a|e|] w1]; simpl in *; [done| |done].
  by apply Hk.
Qed.

Lemma keeps_put p q (behind : option (list Byte.byte)) (m : gmap (list N) (list Byte.byte)) :
  is_Some (m !! p) -> is_Some (put q behind m !! p).
Proof.
  intros Hp. destruct behind as [data|]; [|done]. cbn.
  destruct (decide (q = p)) as [->|Hne].
  - rewrite lookup_insert_eq. by eexists.
  - by rewrite lookup_insert_ne.
Qed.

Lemma keeps_write_videofile (svc : services T) p v output_path codec fps :
  p <> temp_audiofile output_path ->
  keeps p (write_videofile svc v output_path codec fps).
Proof.
  intros Hne w Hp. unfold write_videofile. rewrite bind_emit.
  destruct (encode_video svc v codec fps) as [[e behind]|data]; cbn.
  - apply keeps_put. destruct (video_audio v); [by apply keeps_put|done].
  - assert (is_Some (<[output_path := data]> (fs w) !! p)) as Hw.
    { destruct (decide (output_path = p)) as [->|Hq].
      - rewrite lookup_insert_eq. by eexists.
      - by rewrite lookup_insert_ne. }
    destruct (video_audio v); [by rewrite lookup_delete_ne|done].
Qed.

Lemma appends_weaken {A} (P Q : event T -> Prop) (c : M T A) :
  (forall e, P e -> Q e) -> appends P c -> appends Q c.
Proof.
  intros HPQ Hc w. destruct (Hc w) as (l & El & Hl). exists l. split; [done|].
  by eapply Forall_impl.
Qed.

Lemma keeps_until_offered_bind {A B} p (c : M T A) (k : A -> M T B) :
  keeps p c -> appends (fun _ => True) c ->
  (forall a, keeps_until_offered p (k a)) ->
  keeps_until_offered p (bind c k).
Proof.
  intros Hc Hl Hk w Hp. unfold bind. specialize (Hc w Hp).
  destruct (Hl w) as (l1 & El1 & _).
  destruct (c w) as [[a|e|] w1]; simpl in *;
    [|exists l1; by split; [|left]..].
  destruct (Hk a w1 Hc) as (l2 & El2 & Hend).
  exists (l1 ++ l2). split; [by rewrite El2, El1, app_assoc|].
  destruct Hend as [?|Hex]; [by left|right].
  apply Exists_app. by right.
Qed.

Lemma keeps_until_offered_download {A} p (e : event T) (c : M T A) :
  is_download e = true ->
  appends (fun _ => True) c ->
  keeps_until_offered p (bind (emit e) (fun _ => c)).
Proof.
  intros He Hc w _. rewrite bind_emit.
  match goal with |- context [c ?w1] => destruct (Hc w1) as (l & El & _) end.
  exists (e :: l). split; [by rewrite El; cbn; rewrite <- app_assoc|].
  right. by left.
Qed.

End KeepsFacts.

(** Goals [keeps p c] for a computation made of the primitives. *)
Ltac keeps_step :=
  lazymatch goal with
  | |- keeps _ (bind _ _) => apply keeps_bind; [|intros ?]
  | |- keeps _ (try_except _ _) => apply keeps_try_except; [|intros ?]
  | |- keeps _ (ret _) => apply keeps_ret
  | |- keeps _ (raise _) => apply keeps_raise
  | |- keeps _ st_stop => apply keeps_st_stop
  | |- keeps _ (lift _) => apply keeps_lift
  | |- keeps _ (emit _) => apply keeps_emit
  | |- keeps _ (st_error _) => apply keeps_emit
  | |- keeps _ (write_file _ _ _) => apply keeps_write_file
  | |- keeps _ (read_file _) => apply keeps_read_file
  | |- keeps _ (match ?x with _ => _ end) => destruct x
  end.

Ltac keeps_auto := repeat keeps_step.

(** Goals [appends in_range c]: the values shown are checked by [lia]. *)
Ltac range_step :=
  lazymatch goal with
  | |- appends _ (emit _) => apply appends_emit; cbn; lia
  | |- appends _ (st_error _) => apply appends_emit; exact I
  | |- appends _ (st_warning _) => apply appends_emit; exact I
  | |- _ => appends_step
  end.

Ltac range_auto := repeat range_step.

Section HandlerMore.
Context {T : Type} `{Seconds T} (svc : services T).
Implicit Types (w : world T) (u : ui) (f : uploaded) (p : list N).

Lemma keeps_generate_image_for_sentence p sentence style_prompt index :
  keeps p (generate_image_for_sentence svc sentence style_prompt index).
Proof. unfold generate_image_for_sentence. keeps_auto. Qed.

Lemma keeps_for_sentences p style_prompt total items image_paths :
  keeps p (for_sentences svc style_prompt total items image_paths).
Proof.
  revert image_paths. induction items as [|[i s] rest IH]; intros image_paths;
    cbn [for_sentences]; [apply keeps_ret|].
  apply keeps_bind; [apply keeps_emit|]. intros _.
  apply keeps_bind; [apply keeps_generate_image_for_sentence|]. intros r. apply IH.
Qed.

Lemma keeps_create_video_from_images p image_paths audio_path output_path :
  p <> temp_audiofile output_path ->
  keeps p (create_video_from_images svc image_paths audio_path output_path).
Proof.
  intros Hne. unfold create_video_from_images.
  apply keeps_bind; [apply keeps_emit|]. intros _.
  apply keeps_bind; [apply reads_only_keeps, reads_only_AudioFileClip|]. intros a.
  apply keeps_bind; [apply reads_only_keeps, reads_only_true_div|]. intros d.
  apply keeps_bind; [apply reads_only_keeps, reads_only_for_image_paths|]. intros clips.
  apply keeps_bind; [apply reads_only_keeps, reads_only_concatenate_videoclips|]. intros v.
  apply keeps_bind; [by apply keeps_write_videofile|]. intros _. apply keeps_ret.
Qed.

Lemma create_video_from_images_grows image_paths audio_path output_path :
  appends (fun _ => True)
    (create_video_from_images svc image_paths audio_path output_path).
Proof.
  unfold create_video_from_images.
  apply appends_bind; [by apply appends_emit|]. intros _.
  eapply appends_weaken; [|apply create_video_from_images_tail_quiet]. done.
Qed.

Lemma for_sentences_grows style_prompt total items image_paths :
  appends (fun _ => True) (for_sentences svc style_prompt total items image_paths).
Proof.
  intros w.
  destruct (for_sentences_spec svc style_prompt total items image_paths w)
    as (l & fs' & E & _). exists l. rewrite E. split; [done|].
  by apply Forall_forall.
Qed.

Lemma keeps_transcribe_audio p audio_path :
  keeps p (transcribe_audio svc audio_path).
Proof. unfold transcribe_audio. keeps_auto. Qed.

(** X12: when the transcription service raises, the exception leaves the
    handler as it is: nothing is shown about it, no sentence is
    illustrated, the assembler is not called, and the uploaded audio stays
    where it was saved. *)
Theorem X12_transcription_failure_propagates u f e w :
  button u = true ->
  uploaded_file u = Some f ->
  open_wb svc (path_join temp (name f)) = None ->
  transcriptions_create svc (getbuffer f) = inl e ->
  exists l,
    run_script svc u w
    = (Raise e,
       {| fs := <[path_join temp (name f) := getbuffer f]> (fs w);
          log := log w ++ l |})
    /\ Forall (fun ev => match ev with StError _ => False | _ => True end) l
    /\ illustrator_calls l = []
    /\ no_assembler_call l.
Proof.
  intros Hb Hu Ho Ht. unfold run_script, button_handler. rewrite Hb, Hu.
  rewrite (bind_Return _ _ _ _ _ (write_file_ok _ _ _ w Ho)).
  rewrite !bind_emit.
  erewrite bind_Raise.
  2: { unfold transcribe_audio. rewrite bind_emit.
       unfold bind, read_file. cbn [fs]. rewrite lookup_insert_eq, Ht.
       reflexivity. }
  cbn [fs log]. eexists [_; _; _]. rewrite <- !app_assoc.
  split; [reflexivity|]. split; [by repeat constructor|].
  split; [done|by repeat constructor].
Qed.

(** X13: the uploaded audio stays in "temp" until the video has been
    offered for download: however a run ends after the audio was saved
    (it returns, it stops, or it raises, in the cleanup or before), the
    audio file is still there, or the download button has been shown. *)
Theorem X13_scratch_left_on_failure u f w :
  button u = true ->
  uploaded_file u = Some f ->
  is_file_name (name f) = true ->
  open_wb svc (path_join temp (name f)) = None ->
  exists l,
    log (run_script svc u w).2 = log w ++ l
    /\ (is_Some (fs (run_script svc u w).2 !! path_join temp (name f))
        \/ Exists (fun e => is_download e = true) l).
Proof.
  intros Hb Hu Hn Ho. unfold run_script, button_handler. rewrite Hb, Hu.
  rewrite (bind_Return _ _ _ _ _ (write_file_ok _ _ _ w Ho)).
  match goal with
  | |- context [?rest ?w1] =>
      lazymatch rest with
      | bind _ _ =>
          assert (keeps_until_offered (path_join temp (name f)) rest) as Hrest;
          [|apply (Hrest w1); cbn [fs]; rewrite lookup_insert_eq; by eexists]
      end
  end.
  cbv zeta.
  do 2 (apply keeps_until_offered_bind; [apply keeps_emit|appends_auto|intros _]).
  apply keeps_until_offered_bind;
    [apply keeps_transcribe_audio|unfold transcribe_audio; appends_auto|intros text].
  apply keeps_until_offered_bind; [apply keeps_emit|appends_auto|intros _].
  apply keeps_until_offered_bind; [keeps_auto|appends_auto|intros _].
  apply keeps_until_offered_bind;
    [apply keeps_for_sentences|apply for_sentences_grows|intros image_paths].
  apply keeps_until_offered_bind; [keeps_auto|appends_auto|intros _].
  apply keeps_until_offered_bind; [apply keeps_emit|appends_auto|intros _].
  apply keeps_until_offered_bind;
    [apply keeps_create_video_from_images, path_join_temp_not_audiofile
    |apply create_video_from_images_grows|intros video_path].
  do 5 (apply keeps_until_offered_bind; [apply keeps_emit|appends_auto|intros _]).
  apply keeps_until_offered_bind; [apply keeps_read_file|appends_auto|intros video_bytes].
  apply keeps_until_offered_bind; [apply keeps_emit|appends_auto|intros _].
  apply keeps_until_offered_download; [done|].
  eapply appends_weaken; [|apply cleanup_quiet]. done.
Qed.

Lemma for_sentences_in_range style_prompt total items image_paths :
  Forall (fun item => item.1 < total) items ->
  appends in_range (for_sentences svc style_prompt total items image_paths).
Proof.
  intros Hi. revert image_paths.
  induction Hi as [|[i s] rest Hlt _ IH]; intros image_paths;
    cbn [for_sentences]; [apply appends_ret|].
  cbn [fst] in Hlt.
  apply appends_bind.
  { apply appends_emit. unfold in_range.
    assert (80 * (i + 1) / total <= 80) as Hq; [|lia].
    apply Nat.Div0.div_le_upper_bound. nia. }
  intros _. apply appends_bind; [|intros r; apply IH].
  unfold generate_image_for_sentence. range_auto.
Qed.

Lemma enumerate_in_range {A} (l : list A) :
  Forall (fun item => item.1 < length l) (enumerate l).
Proof.
  apply Forall_forall. intros [i x] Hi%enumerate_elem. cbn.
  by eapply lookup_lt_Some.
Qed.

(** X14: whatever the run, every value that it gives to the progress
    bar is at most 100 (a larger one would make [st.progress] raise). *)
Theorem X14_progress_in_range u w :
  exists l, log (run_script svc u w).2 = log w ++ l /\ Forall in_range l.
Proof.
  assert (appends in_range (run_script svc u)) as Hrun; [|apply Hrun].
  unfold run_script. destruct (button u); [|apply appends_ret].
  unfold button_handler. destruct (uploaded_file u) as [f|]; [|range_auto].
  cbv zeta.
  apply appends_bind; [range_auto|intros _].
  do 2 (apply appends_bind; [range_auto|intros _]).
  apply appends_bind; [unfold transcribe_audio; range_auto|intros text].
  apply appends_bind; [range_auto|intros _].
  apply appends_bind; [range_auto|intros _].
  apply appends_bind;
    [apply for_sentences_in_range, enumerate_in_range|intros image_paths].
  apply appends_bind; [range_auto|intros _].
  apply appends_bind; [range_auto|intros _].
  apply appends_bind.
  { unfold create_video_from_images.
    apply appends_bind; [range_auto|intros _].
    apply appends_bind; [unfold AudioFileClip; range_auto|intros a].
    apply appends_bind; [unfold true_div; range_auto|intros d].
    apply appends_bind.
    { generalize (@nil (image_clip T)).
      induction image_paths as [|p rest IH]; intros clips; cbn [for_image_paths];
        [apply appends_ret|].
      apply appends_bind; [unfold ImageClip; range_auto|intros c; apply IH]. }
    intros clips.
    apply appends_bind; [unfold concatenate_videoclips; range_auto|intros v].
    apply appends_bind; [by apply appends_write_videofile|intros _].
    apply appends_ret. }
  intros video_path. range_auto.
  unfold cleanup. range_auto.
Qed.


(** X16: in a run that goes through, what is played and what the
    download button offers, under the name "animacao_gerada.mp4", are
    the bytes that the encoder produced, and they are the last two things
    shown; the run then ends, normally when "temp" has no sub-directory,
    and otherwise normally or with the IsADirectoryError of the cleanup
    (see [run_with_subdirectory]). *)
Theorem X16_download_is_encoded_video u f text D video w :
  button u = true ->
  uploaded_file u = Some f ->
  (forall i, image_path_of i <> path_join temp (name f)) ->
  open_wb svc (path_join temp (name f)) = None ->
  transcriptions_create svc (getbuffer f) = inr text ->
  let audio_path := path_join temp (name f) in
  let image_paths :=
    successful_paths svc (style_options (selected_style u))
      (enumerate (segment_text text)) in
  image_paths <> [] ->
  audio_file_duration svc (getbuffer f) = inr D ->
  (forall data, downloaded svc data -> image_load svc data = None) ->
  encode_video svc (final_clip_for image_paths audio_path D) (lit "libx264") 24
  = inr video ->
  exists r l fs',
    run_script svc u w
    = (r,
       {| fs := fs';
          log := log w ++ l
                 ++ [StVideo video;
                     StDownloadButton (lit "Baixar Vídeo 📥") video
                       (lit "animacao_gerada.mp4") (lit "video/mp4")] |})
    /\ (r = Return tt \/ exists p, r = Raise (IsADirectoryError p))
    /\ (is_file_name (name f) = true -> flat_temp (fs w) = true -> r = Return tt).
Proof.
  intros Hb Hu Ha Ho Ht audio_path image_paths Hp Hd Hl He.
  unfold run_script. rewrite Hb.
  destruct (handler_goes_through svc u f text D video w Hu Ha Ho Ht Hp Hd Hl He)
    as (l & fs5 & -> & _ & _ & _ & _ & Hkeys & _).
  fold audio_path image_paths in Hkeys.
  match goal with
  | |- context [cleanup svc ?w5] =>
      destruct (cleanup_spec svc w5) as (r & fs' & Ec & _ & Hend);
      pose proof (cleanup_flat svc w5) as Hflat5
  end.
  rewrite Ec in *. cbn [fs log] in *. exists r, l, fs'. split; [done|]. split.
  - destruct Hend as [[-> _]|(n & _ & -> & _)]; [by left|right]. by eexists.
  - intros Hn Hflat.
    destruct Hflat5 as (fs'' & Ec' & _); [|by injection Ec' as -> _].
    apply (flat_temp_grown (fs w)); [|done]. intros k Hk.
    destruct (Hkeys k Hk) as [?|[->|[(i & ->)%successful_paths_image|?]]]; auto.
    + right. left. by apply in_temp_audio_path.
    + right. left. apply in_temp_image_path.
Qed.

Lemma appends_bind_det {A B} (P : event T -> Prop) (c : M T A) (k : A -> M T B) a0 :
  (forall w, exists w', c w = (Return a0, w')) ->
  appends P c -> appends P (k a0) -> appends P (bind c k).
Proof.
  intros Hdet Hc Hk w. unfold bind.
  destruct (Hc w) as (l & El & Hl). destruct (Hdet w) as (w' & E).
  rewrite E in *. cbn [snd] in El.
  destruct (Hk w') as (l' & El' & Hl').
  exists (l ++ l'). rewrite El', El, app_assoc. split; [done|].
  by apply Forall_app.
Qed.

Lemma appends_quiet_well_called {A} (c : M T A) :
  appends quiet c -> appends well_called c.
Proof.
  intros Hc w. destruct (Hc w) as (l & El & Hl). exists l. split; [done|].
  eapply Forall_impl; [exact Hl|]. by intros [].
Qed.

Lemma for_sentences_quiet style_prompt total items image_paths :
  appends quiet (for_sentences svc style_prompt total items image_paths).
Proof.
  intros w.
  destruct (for_sentences_spec svc style_prompt total items image_paths w)
    as (l & fs' & E & _ & Hq & _). exists l. by rewrite E.
Qed.

(** X17: in no run is the assembler called without images: whenever the
    handler calls it, it is with at least one image, every image a file
    directly inside "temp", and for the output "final_animation.mp4". *)
Theorem X17_assembler_well_called u w :
  exists l, log (run_script svc u w).2 = log w ++ l /\ Forall well_called l.
Proof.
  assert (appends well_called (run_script svc u)) as Hrun; [|apply Hrun].
  unfold run_script. destruct (button u); [|apply appends_ret].
  unfold button_handler. destruct (uploaded_file u) as [f|];
    [|apply appends_quiet_well_called; appends_auto].
  cbv zeta.
  do 3 (apply appends_bind; [apply appends_quiet_well_called; appends_auto|intros _]).
  apply appends_bind;
    [apply appends_quiet_well_called, transcribe_audio_quiet|intros text].
  do 2 (apply appends_bind; [apply appends_quiet_well_called; appends_auto|intros _]).
  set (style_prompt := style_options (selected_style u)).
  set (items := enumerate (segment_text text)).
  apply (appends_bind_det _ _ _ (successful_paths svc style_prompt items)).
  { intros w1.
    destruct (for_sentences_spec svc style_prompt (length (segment_text text))
                items [] w1) as (l & fs' & E & _). rewrite E. by eexists. }
  { apply appends_quiet_well_called, for_sentences_quiet. }
  destruct (successful_paths svc style_prompt items) as [|p ps] eqn:Ep.
  { intros w1. exists [StError (lit "Nenhuma imagem foi gerada. Verifique os logs de erro.")].
    split; [done|]. by repeat constructor. }
  rewrite <- Ep.
  apply appends_bind; [apply appends_ret|intros _].
  apply appends_bind; [apply appends_quiet_well_called; appends_auto|intros _].
  apply appends_bind.
  { unfold create_video_from_images. apply appends_bind.
    - apply appends_emit. split; [by rewrite Ep|]. split; [|done].
      apply Forall_forall. intros q (i & ->)%successful_paths_image.
      apply in_temp_image_path.
    - intros _. apply appends_quiet_well_called,
        create_video_from_images_tail_quiet. }
  intros video_path. apply appends_quiet_well_called.
  appends_auto. apply cleanup_quiet.
Qed.

End HandlerMore.

Lemma X12_transcription_failure_propagates_witness :
  (button Sample.upload = true
   /\ uploaded_file Sample.upload = Some Sample.recording
   /\ open_wb MoreSamples.deaf (path_join temp (name Sample.recording)) = None
   /\ transcriptions_create MoreSamples.deaf (getbuffer Sample.recording)
      = inl (ServiceError (lit "Connection error.")))
  /\ exists l,
       run_script MoreSamples.deaf Sample.upload (@Sample.empty_world float)
       = (Raise (ServiceError (lit "Connection error.")),
          {| fs := <[path_join temp (name Sample.recording) := getbuffer Sample.recording]>
                     (fs (@Sample.empty_world float));
             log := log (@Sample.empty_world float) ++ l |})
       /\ Forall (fun ev => match ev with StError _ => False | _ => True end) l
       /\ illustrator_calls l = []
       /\ no_assembler_call l.
Proof.
  split; [by repeat split|].
  exact (X12_transcription_failure_propagates MoreSamples.deaf Sample.upload
           Sample.recording (ServiceError (lit "Connection error."))
           (@Sample.empty_world float) eq_refl eq_refl eq_refl eq_refl).
Defined.

Lemma X13_scratch_left_on_failure_witness :
  (button Sample.upload = true
   /\ uploaded_file Sample.upload = Some Sample.recording
   /\ is_file_name (name Sample.recording) = true
   /\ open_wb Sample.all_refused (path_join temp (name Sample.recording)) = None)
  /\ exists l,
       log (run_script Sample.all_refused Sample.upload (@Sample.empty_world float)).2
       = log (@Sample.empty_world float) ++ l
       /\ (is_Some (fs (run_script Sample.all_refused Sample.upload
                          (@Sample.empty_world float)).2
                    !! path_join temp (name Sample.recording))
           \/ Exists (fun e => is_download e = true) l).
Proof.
  split; [by repeat split|].
  exact (X13_scratch_left_on_failure Sample.all_refused Sample.upload
           Sample.recording (@Sample.empty_world float)
           eq_refl eq_refl eq_refl eq_refl).
Defined.

(** A run in which every illustration is refused stops with the audio
    still in "temp". *)
Example scratch_left_when_all_refused :
  let end_of_run := run_script Sample.all_refused Sample.upload (@Sample.empty_world float) in
  end_of_run.1 = Stopped
  /\ map fst (map_to_list (fs end_of_run.2)) = [Sample.talk].
Proof. vm_compute. done. Qed.

(** A run that goes through with a sub-directory in "temp": the video is
    shown and offered, the cleanup removes the audio and the image, then
    raises on the sub-directory; the video is in place. *)
Example run_with_subdirectory :
  let end_of_run :=
    run_script Sample.first_refused Sample.upload
      (@MoreSamples.with_subdirectory float) in
  end_of_run.1 = Raise (IsADirectoryError (lit "temp/frames_of_an_earlier_run"))
  /\ map fst (map_to_list (fs end_of_run.2)) = [final_animation; MoreSamples.nested]
  /\ last (log end_of_run.2)
     = Some (StDownloadButton (lit "Baixar Vídeo 📥") Sample.mp4
               (lit "animacao_gerada.mp4") (lit "video/mp4")).
Proof. vm_compute. done. Qed.

Lemma X16_download_is_encoded_video_witness :
  (button Sample.upload = true
   /\ uploaded_file Sample.upload = Some Sample.recording
   /\ (forall i, image_path_of i <> path_join temp (name Sample.recording))
   /\ open_wb Sample.first_refused (path_join temp (name Sample.recording)) = None
   /\ transcriptions_create Sample.first_refused (getbuffer Sample.recording)
      = inr Sample.hello
   /\ successful_paths Sample.first_refused
        (style_options (selected_style Sample.upload))
        (enumerate (segment_text Sample.hello)) <> []
   /\ audio_file_duration Sample.first_refused (getbuffer Sample.recording)
      = inr 10%float
   /\ (forall data, downloaded Sample.first_refused data ->
         image_load Sample.first_refused data = None)
   /\ encode_video Sample.first_refused
        (final_clip_for
           (successful_paths Sample.first_refused
              (style_options (selected_style Sample.upload))
              (enumerate (segment_text Sample.hello)))
           (path_join temp (name Sample.recording)) 10%float)
        (lit "libx264") 24
      = inr Sample.mp4)
  /\ exists r l fs',
       run_script Sample.first_refused Sample.upload (@Sample.empty_world float)
       = (r,
          {| fs := fs';
             log := log (@Sample.empty_world float) ++ l
                    ++ [StVideo Sample.mp4;
                        StDownloadButton (lit "Baixar Vídeo 📥") Sample.mp4
                          (lit "animacao_gerada.mp4") (lit "video/mp4")] |})
       /\ (r = Return tt \/ exists p, r = Raise (IsADirectoryError p))
       /\ (is_file_name (name Sample.recording) = true ->
           flat_temp (fs (@Sample.empty_world float)) = true -> r = Return tt).
Proof.
  assert (forall i, image_path_of i <> path_join temp (name Sample.recording)) as H3.
  { intros i E. apply (f_equal last) in E.
    rewrite image_path_of_last in E. discriminate E. }
  assert (successful_paths Sample.first_refused
            (style_options (selected_style Sample.upload))
            (enumerate (segment_text Sample.hello)) <> []) as H6 by discriminate.
  split; [by repeat split|].
  exact (X16_download_is_encoded_video Sample.first_refused Sample.upload
           Sample.recording Sample.hello 10%float Sample.mp4
           (@Sample.empty_world float)
           eq_refl eq_refl H3 eq_refl eq_refl H6 eq_refl
           (fun _ _ => eq_refl) eq_refl).
Defined.
